(** * traceroute_history: change-gated storage of traceroute outputs

    A shallow embedding of [traceroute_history.py] and the properties of
    its hop comparison, its renderer, its update and retention policies
    and its configuration readers.

    Conventions of the embedding:
    - Python exceptions are values of [exn], carried by the [result] monad;
      a [try ... except E] is a [match] on the raised exception.
    - Python [str] is [string] (a sequence of bytes); the models of the
      built-ins [int], [str.split] and of the two regular expressions cover
      ASCII text.
    - The database is a pair of tables (lists of rows in insertion order),
      threaded explicitly through the operations.
    - Third-party collaborators (the [trparse] parser, [command_runner],
      the clock, the file system) are parameters of the sections that use
      them. *)

From Stdlib Require Import List String Ascii ZArith Bool Arith Lia.
From Stdlib Require Import DecimalString Sorting.Sorted Sorting.Permutation.
From Stdlib Require DecimalPos.
Import ListNotations.
Open Scope string_scope.
Open Scope list_scope.

Set Implicit Arguments.

(* ================================================================== *)
(** * Exceptions *)

(** The exception classes the modelled code can raise or catch. *)
Inductive exn : Type :=
| IndexError
| KeyError
| TypeError
| ValueError
| OverflowError
| NoResultFound
| MultipleResultsFound
| DetachedInstanceError
| SystemExit (code : Z).

Inductive result (A : Type) : Type :=
| Ok (a : A)
| Raise (e : exn).

Arguments Ok {A} a.
Arguments Raise {A} e.

Definition bind {A B : Type} (c : result A) (k : A -> result B) : result B :=
  match c with
  | Ok a => k a
  | Raise e => Raise e
  end.

Notation "x <- c ;; k" := (bind c (fun x => k))
  (at level 61, c at next level, right associativity).

(** [l[i]] for a non-negative index. *)
Definition getitem {A : Type} (l : list A) (i : nat) : result A :=
  match nth_error l i with
  | Some x => Ok x
  | None => Raise IndexError
  end.

Definition option_string_eqb (a b : option string) : bool :=
  match a, b with
  | None, None => true
  | Some x, Some y => String.eqb x y
  | _, _ => false
  end.

(* ================================================================== *)
(** * The parsed trace of [trparse] *)

(** The classes of the third-party parser [trparse] that the code reads:
    a trace is a list of hops, a hop a list of probes, a probe carries the
    resolved address ([None] for a probe without one). *)
Module trparse.

Record Probe : Type := mkProbe {
  name : option string;
  ip : option string
}.

Record Hop : Type := mkHop {
  idx : Z;
  probes : list Probe
}.

Record Traceroute : Type := mkTraceroute {
  dest_name : string;
  dest_ip : string;
  hops : list Hop
}.

End trparse.

(* ================================================================== *)
(** * Hop comparison: [diff_traceroutes] *)

Section Diff.

(** [trparse.loads], the parser of raw traceroute output. It is taken as
    a function: a text on which the parser itself raises is not a trace
    and is outside the embedding. *)
Variable loads : string -> trparse.Traceroute.

(** [tr.hops[index].probes[0].ip] *)
Definition first_probe_ip (tr : trparse.Traceroute) (index : nat)
  : result (option string) :=
  hop <- getitem (trparse.hops tr) index ;;
  probe <- getitem (trparse.probes hop) 0 ;;
  Ok (trparse.ip probe).

(** The condition of the [if] in the loop body, with the exceptions its
    evaluation raises. *)
Definition hops_differ (tr1_object tr2_object : trparse.Traceroute)
           (index : nat) : result bool :=
  ip1 <- first_probe_ip tr1_object index ;;
  ip2 <- first_probe_ip tr2_object index ;;
  Ok (negb (option_string_eqb ip1 ip2)).

(** One iteration of the [for] loop: the [try] body appends [index] when
    the addresses differ, the [except IndexError] handler appends it
    too. *)
Definition diff_body (tr1_object tr2_object : trparse.Traceroute)
           (different_hops : list nat) (index : nat) : list nat :=
  match hops_differ tr1_object tr2_object index with
  | Ok true => different_hops ++ [index]
  | Ok false => different_hops
  | Raise _ => different_hops ++ [index]
  end.

Definition diff_traceroutes (tr1 tr2 : string) : list nat :=
  let tr1_object := loads tr1 in
  let tr2_object := loads tr2 in
  let max_hops := Nat.max (List.length (trparse.hops tr1_object))
                          (List.length (trparse.hops tr2_object)) in
  fold_left (diff_body tr1_object tr2_object) (seq 0 max_hops) [].

(** The bound of the loop, [max(len(tr1_object.hops), len(tr2_object.hops))]. *)
Definition max_hops (tr1 tr2 : string) : nat :=
  Nat.max (List.length (trparse.hops (loads tr1)))
          (List.length (trparse.hops (loads tr2))).

(** Whether iteration [index] appends. *)
Definition marks (tr1_object tr2_object : trparse.Traceroute)
           (index : nat) : bool :=
  match hops_differ tr1_object tr2_object index with
  | Ok b => b
  | Raise _ => true
  end.

(** Every hop of the trace carries at least one probe. *)
Definition hops_have_probes (tr : trparse.Traceroute) : Prop :=
  Forall (fun hop => trparse.probes hop <> []) (trparse.hops tr).

(** Whether the hop at [index] exists and has no probe at all. *)
Definition probeless (tr : trparse.Traceroute) (index : nat) : bool :=
  match nth_error (trparse.hops tr) index with
  | Some hop => match trparse.probes hop with [] => true | _ :: _ => false end
  | None => false
  end.

(** The first-probe address of the hop at [index], when there is one. *)
Definition first_address (tr : trparse.Traceroute) (index : nat)
  : option (option string) :=
  match nth_error (trparse.hops tr) index with
  | Some hop => option_map trparse.ip (hd_error (trparse.probes hop))
  | None => None
  end.

End Diff.

(* ================================================================== *)
(** * Python built-ins on ASCII text *)

Definition nl_char : ascii := ascii_of_nat 10.
Definition nl : string := String nl_char "".
Definition dq : string := String (ascii_of_nat 34) "".
Definition esc : string := String (ascii_of_nat 27) "".

(** [str.isspace] on one ASCII character: tab, line feed, vertical tab,
    form feed, carriage return, the four separators 28..31, and space. *)
Definition is_space (c : ascii) : bool :=
  let n := nat_of_ascii c in
  ((9 <=? n) && (n <=? 13) || (28 <=? n) && (n <=? 32))%nat.

Fixpoint drop_while (f : ascii -> bool) (s : string) : string :=
  match s with
  | EmptyString => EmptyString
  | String c s' => if f c then drop_while f s' else s
  end.

Fixpoint take_while (f : ascii -> bool) (s : string) : string :=
  match s with
  | EmptyString => EmptyString
  | String c s' => if f c then String c (take_while f s') else EmptyString
  end.

Definition rev_string (s : string) : string :=
  string_of_list_ascii (rev (list_ascii_of_string s)).

(** [s.split()]: the maximal runs of non-whitespace characters. [tok] is
    the run being read, if any. *)
Fixpoint split_ws (s : string) (tok : option string) : list string :=
  match s with
  | EmptyString => match tok with Some t => [t] | None => [] end
  | String c s' =>
      if is_space c then
        match tok with
        | Some t => t :: split_ws s' None
        | None => split_ws s' None
        end
      else
        split_ws s' (Some (match tok with
                           | Some t => (t ++ String c "")%string
                           | None => String c ""
                           end))
  end.

Definition py_split (s : string) : list string := split_ws s None.

(** [s.split(sep)] for a one-character separator: never empty, keeps
    empty fields. *)
Fixpoint split_on (sep : ascii) (s : string) : list string :=
  match s with
  | EmptyString => [EmptyString]
  | String c s' =>
      if Ascii.eqb c sep then EmptyString :: split_on sep s'
      else match split_on sep s' with
           | field :: rest => String c field :: rest
           | [] => [String c ""]
           end
  end.

Definition digit_of (c : ascii) : option Z :=
  let n := nat_of_ascii c in
  if ((48 <=? n) && (n <=? 57))%nat then Some (Z.of_nat (n - 48)) else None.

(** The digits of a decimal literal, where single underscores may separate
    digits. [after_digit] says that the previous character was a digit. *)
Fixpoint digits (s : string) (acc : Z) (after_digit : bool) : option Z :=
  match s with
  | EmptyString => if after_digit then Some acc else None
  | String c s' =>
      match digit_of c with
      | Some d => digits s' (10 * acc + d) true
      | None =>
          if Ascii.eqb c "_" && after_digit then digits s' acc false
          else None
      end
  end.

(** The whitespace [int] skips around a number: the six characters of
    C's [isspace]. The separators 28..31, which [str.split] and
    [str.strip] treat as whitespace, are not among them. *)
Definition is_c_space (c : ascii) : bool :=
  let n := nat_of_ascii c in
  ((9 <=? n) && (n <=? 13) || (n =? 32))%nat.

Definition strip_c (s : string) : string :=
  rev_string (drop_while is_c_space (rev_string (drop_while is_c_space s))).

(** The number of digit characters of a text. *)
Fixpoint count_digits (s : string) : nat :=
  match s with
  | EmptyString => 0
  | String c s' =>
      match digit_of c with
      | Some _ => S (count_digits s')
      | None => count_digits s'
      end
  end.

(** [sys.int_max_str_digits]: the longest decimal text [int] converts. *)
Definition int_max_str_digits : nat := 4300.

(** [int(s)] for a [str]: surrounding whitespace, an optional sign, decimal
    digits, at most [int_max_str_digits] of them. Anything else raises
    [ValueError]. *)
Definition py_int (s : string) : result Z :=
  let text := strip_c s in
  let parsed :=
    match text with
    | String "-" ds => option_map Z.opp (digits ds 0 false)
    | String "+" ds => digits ds 0 false
    | ds => digits ds 0 false
    end in
  match parsed with
  | Some n =>
      if (count_digits text <=? int_max_str_digits)%nat then Ok n
      else Raise ValueError
  | None => Raise ValueError
  end.

(** ['{0}'.format(n)] for an integer. *)
Definition str_of_Z (n : Z) : string :=
  DecimalString.NilZero.string_of_int (Z.to_int n).

Definition str_of_nat (n : nat) : string := str_of_Z (Z.of_nat n).

Fixpoint strip_prefix (p s : string) : option string :=
  match p with
  | EmptyString => Some s
  | String a p' =>
      match s with
      | String b s' => if Ascii.eqb a b then strip_prefix p' s' else None
      | EmptyString => None
      end
  end.

(** [s.startswith(p)] *)
Definition startswith (s p : string) : bool :=
  match strip_prefix p s with Some _ => true | None => false end.

(** [x in l] for an integer [x] and a list of hop indices. *)
Definition py_in (x : Z) (l : list nat) : bool :=
  existsb (fun d => Z.eqb (Z.of_nat d) x) l.

(* ================================================================== *)
(** * Logging *)

Inductive level : Type := DEBUG | INFO | WARNING | ERROR | CRITICAL.

(** One call of a [logger] method: the level and the formatted message. *)
Definition LogRecord : Type := (level * string)%type.

(* ================================================================== *)
(** * The database *)

(** Timestamps are microseconds since 0001-01-01T00:00:00, the first
    instant a [datetime] can hold. *)
Definition datetime : Type := Z.

Module Target.
(** Modelled from the spec: the [Target] table of [sql_declaration],
    which is not among the sources: a unique name, the address to probe,
    and the row id that snapshots refer to. *)
Record t : Type := mk {
  id : nat;
  name : string;
  address : string
}.
End Target.

Module Traceroute.
(** Modelled from the spec: the [Traceroute] table of [sql_declaration],
    which is not among the sources: a monotonic row id, the raw text, the
    creation timestamp, and the foreign key to the owning target. *)
Record t : Type := mk {
  id : nat;
  traceroute : string;
  creation_date : datetime;
  target : nat
}.
End Traceroute.

(** The two tables, rows in insertion order. *)
Record Db : Type := mkDb {
  targets : list Target.t;
  traceroutes : list Traceroute.t
}.

(** What a call did: the value it returned or the exception it raised, the
    database it left, and what it logged. *)
Record Outcome (A : Type) : Type := mkOutcome {
  returned : result A;
  db_of : Db;
  logged : list LogRecord
}.

(** [query.one()] *)
Definition one {A : Type} (rows : list A) : result A :=
  match rows with
  | [] => Raise NoResultFound
  | [row] => Ok row
  | _ :: _ :: _ => Raise MultipleResultsFound
  end.

(** [query.first()] *)
Definition first {A : Type} (rows : list A) : option A := hd_error rows.

(** [ORDER BY id DESC], by insertion. *)
Fixpoint insert_desc (row : Traceroute.t) (sorted : list Traceroute.t)
  : list Traceroute.t :=
  match sorted with
  | [] => [row]
  | r :: rest =>
      if (Traceroute.id r <=? Traceroute.id row)%nat then row :: sorted
      else r :: insert_desc row rest
  end.

Fixpoint order_by_id_desc (rows : list Traceroute.t) : list Traceroute.t :=
  match rows with
  | [] => []
  | row :: rest => insert_desc row (order_by_id_desc rest)
  end.

(** [LIMIT n] *)
Definition limit {A : Type} (n : Z) (rows : list A) : list A :=
  firstn (Z.to_nat n) rows.

(** The id the database gives to the next row: one more than the largest
    id of the table. *)
Definition next_id (ids : list nat) : nat := S (list_max ids).

(** [session.query(Target).filter(Target.name == name)] *)
Definition targets_named (name : string) (db : Db) : list Target.t :=
  filter (fun t => String.eqb (Target.name t) name) (targets db).

(** [Traceroute.target == target] *)
Definition of_target (target : Target.t) (row : Traceroute.t) : bool :=
  Nat.eqb (Traceroute.target row) (Target.id target).

(** [session.query(Traceroute).filter(Traceroute.target == target)] *)
Definition traceroutes_of (target : Target.t) (db : Db) : list Traceroute.t :=
  filter (of_target target) (traceroutes db).

(** [Traceroute(traceroute=traceroute_output, target=target)], with the
    id and the creation date the database gives the row when it is
    added. *)
Definition new_traceroute (now : datetime) (target : Target.t)
           (traceroute_output : string) (db : Db) : Traceroute.t :=
  Traceroute.mk (next_id (map Traceroute.id (traceroutes db)))
                traceroute_output now (Target.id target).

Definition insert_traceroute (now : datetime) (target : Target.t)
           (traceroute_output : string) (db : Db) : Db :=
  let traceroute := new_traceroute now target traceroute_output db in
  mkDb (targets db) (traceroutes db ++ [traceroute]).

Definition create_target (name address groups : string) (db : Db)
  : Target.t * Db :=
  let target :=
    Target.mk (next_id (map Target.id (targets db))) name address in
  (target, mkDb (targets db ++ [target]) (traceroutes db)).

(* ================================================================== *)
(** * The renderer: [traceroutes_difference_formatted] *)

Section Render.

Variable loads : string -> trparse.Traceroute.
(** [str(creation_date)] *)
Variable str_of_datetime : datetime -> string.
(** The two colours of [colorama], when the module could be imported. *)
Variable colorama : option (string * string).

Section ConsoleOutput.

(** The variables the inner function closes over. *)
Variable different_hops : list nat.
Variable end_color : string.

(** [int(line.split()[0]) - 1] *)
Definition hop_index (line : string) : result Z :=
  token <- getitem (py_split line) 0 ;;
  n <- py_int token ;;
  Ok (n - 1)%Z.

(** One iteration of the loop over the lines. *)
Definition console_body (color : string) (console_output line : string)
  : string :=
  match hop_index line with
  | Raise _ => (console_output ++ line ++ nl)%string
  | Ok index =>
      if py_in index different_hops
      then (console_output ++ color ++ line ++ end_color ++ nl)%string
      else (console_output ++ line ++ nl)%string
  end.

Definition _console_output (tr color : string) : string :=
  fold_left (console_body color) (split_on nl_char tr) EmptyString.

End ConsoleOutput.

Definition web_green : string :=
  ("<span class=" ++ dq ++ "traceroute-green" ++ dq ++ " style=" ++ dq
     ++ "background-color: darkgreen; color:white" ++ dq ++ ">")%string.
Definition web_red : string :=
  ("<span class=" ++ dq ++ "traceroute-red" ++ dq ++ " style=" ++ dq
     ++ "background-color: darkred; color:white" ++ dq ++ ">")%string.

Definition traceroutes_difference_formatted (tr1 tr2 : Traceroute.t)
           (formatting : string) : string :=
  let different_hops :=
    diff_traceroutes loads (Traceroute.traceroute tr1)
                     (Traceroute.traceroute tr2) in
  let '(green_color, red_color, end_color) :=
    if String.eqb formatting "web" then (web_green, web_red, "</span>")
    else
      match colorama with
      | Some (green, red) => (green, red, (esc ++ "[0m")%string)
      | None =>
          ((esc ++ "[102m")%string, (esc ++ "[101m")%string,
           (esc ++ "[0m")%string)
      end in
  ("Traceroute recorded at "
     ++ str_of_datetime (Traceroute.creation_date tr1) ++ ":" ++ nl
     ++ _console_output different_hops end_color
          (Traceroute.traceroute tr1) green_color
     ++ "Traceroute recorded at "
     ++ str_of_datetime (Traceroute.creation_date tr2) ++ ":" ++ nl
     ++ _console_output different_hops end_color
          (Traceroute.traceroute tr2) red_color)%string.

End Render.

(** The order of the rows after [ORDER BY id DESC]. *)
Definition id_ge (a b : Traceroute.t) : Prop :=
  Traceroute.id b <= Traceroute.id a.

(* ================================================================== *)
(** * The update policy: [update_traceroute_database] *)

(** The truth value of an optional [str]: [None] and the empty string are
    false. *)
Definition truthy (s : option string) : option string :=
  match s with
  | Some EmptyString => None
  | other => other
  end.

Section Update.

Variable loads : string -> trparse.Traceroute.
(** [os.name == 'nt'] *)
Variable nt : bool.
(** [command_runner(command, shell=True, encoding=encoding)]: the exit
    code and the output of the command. *)
Variable command_runner : string -> string -> Z * string.

Definition get_traceroute (address : string)
  : option string * list LogRecord :=
  match address with
  | EmptyString => (None, [])
  | _ =>
      let '(executable, encoding) :=
        if nt then ("tracert", "cp437") else ("traceroute", "utf-8") in
      let command := (executable ++ " " ++ address)%string in
      let '(exit_code, output) := command_runner command encoding in
      if (exit_code =? 0)%Z then (Some output, [])
      else
        (None,
         [(ERROR, ("Traceroute to address: " ++ dq ++ address ++ dq
                     ++ " failed with exit code " ++ str_of_Z exit_code
                     ++ ". Command output:")%string);
          (ERROR, output)])
  end.

(** The first statements of the [with] block: look the target up by
    name and create it when the query finds no row. *)
Definition resolve_target (name address groups : string) (db : Db)
  : result (Target.t * Db * list LogRecord) :=
  match one (targets_named name db) with
  | Ok target => Ok (target, db, [])
  | Raise NoResultFound =>
      let '(target, db1) := create_target name address groups db in
      Ok (target, db1,
          [(INFO, ("Created new target: " ++ name ++ ".")%string)])
  | Raise e => Raise e
  end.

(** [session.query(Traceroute).filter(Traceroute.target == target)
     .order_by(Traceroute.id.desc()).first()] *)
Definition last_trace_of (target : Target.t) (db : Db)
  : option Traceroute.t :=
  first (order_by_id_desc (traceroutes_of target db)).

(** The rest of the [with] block, from the call of the probe on. *)
Definition store_if_changed (now : datetime) (name : string)
           (target : Target.t) (db : Db) : Db * list LogRecord :=
  let '(current_trace, probe_log) :=
    get_traceroute (Target.address target) in
  match truthy current_trace with
  | Some current_trace =>
      match last_trace_of target db with
      | Some last_trace =>
          match diff_traceroutes loads (Traceroute.traceroute last_trace)
                                 current_trace with
          | _ :: _ =>
              (insert_traceroute now target current_trace db,
               probe_log ++
               [(INFO, ("Updating different traceroute for target: "
                          ++ name ++ ".")%string)])
          | [] =>
              (db,
               probe_log ++
               [(DEBUG, ("Traceroute identical to last one for target: "
                           ++ name ++ ". Nothing to do.")%string)])
          end
      | None =>
          (insert_traceroute now target current_trace db,
           probe_log ++
           [(INFO, ("Created first tracreoute entry for target: "
                      ++ name ++ ".")%string)])
      end
  | None =>
      (db,
       probe_log ++
       [(ERROR, ("Cannot get traceroute for target: "
                   ++ name ++ ".")%string)])
  end.

(** Whether the instance that [resolve_target] hands on still belongs to
    an open session. The instance the query returned does. The one
    [create_target] built does not: [db_scoped_session] committed and
    closed the session it was added to, which expires the instance and
    detaches it. *)
Definition session_bound (name : string) (db : Db) : bool :=
  match one (targets_named name db) with
  | Ok _ => true
  | Raise _ => false
  end.

(** [target.address]: loading an attribute of an expired, detached
    instance raises. *)
Definition target_address (bound : bool) (target : Target.t)
  : result string :=
  if bound then Ok (Target.address target)
  else Raise DetachedInstanceError.

(** The storage layer of the model never fails, so the handler of
    [sqlalchemy.exc.OperationalError] has nothing to catch; any other
    exception leaves the function. A target that had to be created stays
    in the database, but the call ends at [target.address], before the
    probe. *)
Definition update_traceroute_database (now : datetime)
           (name address groups : string) (db : Db) : Outcome unit :=
  match resolve_target name address groups db with
  | Raise e => mkOutcome (Raise e) db []
  | Ok (target, db1, target_log) =>
      match target_address (session_bound name db) target with
      | Raise e => mkOutcome (Raise e) db1 target_log
      | Ok _ =>
          let '(db2, log) := store_if_changed now name target db1 in
          mkOutcome (Ok tt) db2 (target_log ++ log)
      end
  end.

End Update.

(* ================================================================== *)
(** * The retention policy: [delete_old_traceroutes] *)

Definition microseconds_per_day : Z := 86400000000.

(** One past [datetime.max] (9999-12-31T23:59:59.999999). *)
Definition datetime_end : Z := 3652059 * microseconds_per_day.

(** [timedelta(days=days)] *)
Definition timedelta (days : Z) : result Z :=
  if (Z.abs days <=? 999999999)%Z then Ok (days * microseconds_per_day)%Z
  else Raise OverflowError.

(** [when - delta] for a [datetime] and a [timedelta]. *)
Definition datetime_sub (when : datetime) (delta : Z) : result datetime :=
  let r := (when - delta)%Z in
  if ((0 <=? r) && (r <? datetime_end))%Z then Ok r else Raise OverflowError.

(** The ids the subquery selects: rows of the target created before
    [before], newest id first, at most [num_records_to_delete] of them. *)
Definition subquery (target : Target.t) (before : datetime)
           (num_records_to_delete : Z) (db : Db) : list nat :=
  limit num_records_to_delete
    (map Traceroute.id
       (order_by_id_desc
          (filter (fun row => of_target target row
                              && (Traceroute.creation_date row <? before)%Z)
                  (traceroutes db)))).

(** [Traceroute.id.in_(subquery)] *)
Definition id_in (ids : list nat) (row : Traceroute.t) : bool :=
  existsb (Nat.eqb (Traceroute.id row)) ids.

(** The value of the function is Python's [None] (here [None]) on every
    path: the number of deleted rows is only logged. A raised exception
    rolls the transaction back. *)
Definition delete_old_traceroutes (now : datetime) (name : string)
           (days keep : Z) (db : Db) : Outcome (option Z) :=
  match one (targets_named name db) with
  | Raise NoResultFound => mkOutcome (Ok None) db []
  | Raise e => mkOutcome (Raise e) db []
  | Ok target =>
      let num_records := Z.of_nat (List.length (traceroutes_of target db)) in
      if (keep <? num_records)%Z then
        let num_records_to_delete := (num_records - keep)%Z in
        match (delta <- timedelta days ;; datetime_sub now delta) with
        | Raise e => mkOutcome (Raise e) db []
        | Ok before =>
            let ids := subquery target before num_records_to_delete db in
            let records := List.length (filter (id_in ids) (traceroutes db)) in
            mkOutcome (Ok None)
              (mkDb (targets db)
                    (filter (fun row => negb (id_in ids row))
                            (traceroutes db)))
              [(INFO, ("Deleted " ++ str_of_nat records
                         ++ " old records for target: " ++ name
                         ++ ".")%string)]
        end
      else mkOutcome (Ok None) db []
  end.

(** The rows a call removed from the table. *)
Definition deleted_rows (before_call after_call : Db) : list Traceroute.t :=
  filter (fun row =>
            negb (existsb (Nat.eqb (Traceroute.id row))
                          (map Traceroute.id (traceroutes after_call))))
         (traceroutes before_call).

(** The primary key of the [Traceroute] table. *)
Definition unique_ids (db : Db) : Prop :=
  NoDup (map Traceroute.id (traceroutes db)).

(** The number of stored snapshots of a target. *)
Definition count_of (target : Target.t) (db : Db) : Z :=
  Z.of_nat (List.length (traceroutes_of target db)).

(** Modelled from the spec: the monotonic id of the [Traceroute] table
    of [sql_declaration]: a row stored later has a larger id. *)
Definition ids_increasing (db : Db) : Prop :=
  StronglySorted lt (map Traceroute.id (traceroutes db)).

(** Modelled from the spec: the foreign key of the [Traceroute] table of
    [sql_declaration]: every snapshot refers to a stored target. *)
Definition foreign_keys (db : Db) : Prop :=
  Forall (fun row => In (Traceroute.target row) (map Target.id (targets db)))
         (traceroutes db).

(* ================================================================== *)
(** * Configuration: [read_smokeping_config] and the start of [execute] *)

(** The two expressions of [read_smokeping_config], matched with
    [re.match]. [host_regex]: the word host, optional whitespace, an
    equals sign, optional whitespace, a captured run of non-whitespace
    characters, then the end of the line. [title_regex]: the word title,
    optional whitespace, an equals sign, optional whitespace, a captured
    run of characters other than a line feed, then the end of the line.
    Both return the captured group, or [None] when the line does not
    match. The whitespace runs and the group are over classes that force
    the greedy reading; the end of the line is the end of the string or
    the position before a final line feed. *)
Definition at_dollar (rest : string) : bool :=
  String.eqb rest EmptyString || String.eqb rest nl.

(** Optional whitespace, an equals sign and optional whitespace at the
    start of [s]: what follows them. *)
Definition after_equals (s : string) : option string :=
  match drop_while is_space s with
  | String c rest =>
      if Ascii.eqb c "=" then Some (drop_while is_space rest) else None
  | EmptyString => None
  end.

Definition host_regex (line : string) : option string :=
  match strip_prefix "host" line with
  | Some s =>
      match after_equals s with
      | Some value =>
          let not_space := fun c => negb (is_space c) in
          if at_dollar (drop_while not_space value)
          then Some (take_while not_space value)
          else None
      | None => None
      end
  | None => None
  end.

Definition title_regex (line : string) : option string :=
  match strip_prefix "title" line with
  | Some s =>
      match after_equals s with
      | Some value =>
          let not_nl := fun c => negb (Ascii.eqb c nl_char) in
          if at_dollar (drop_while not_nl value)
          then Some (take_while not_nl value)
          else None
      | None => None
      end
  | None => None
  end.

(** A parsed configuration file: the sections in file order, each with its
    options. *)
Definition Config : Type := list (string * list (string * string)).

Fixpoint lookup {V : Type} (key : string) (items : list (string * V))
  : result V :=
  match items with
  | [] => Raise KeyError
  | (k, v) :: rest => if String.eqb k key then Ok v else lookup key rest
  end.

(** [config[section][option]] *)
Definition config_get (config : Config) (section option : string)
  : result string :=
  options <- lookup section config ;;
  lookup option options.

Module re.

(** A match object, as far as it can be observed: the line that was
    matched ([m.string]) and the captured group ([m.group(1)]). *)
Record Match : Type := mkMatch {
  subject : string;
  group1 : string
}.

End re.

(** [re.match(regex, line)]: a match object, or [None]. *)
Definition re_match (regex : string -> option string) (line : string)
  : option re.Match :=
  option_map (re.mkMatch line) (regex line).

(** An element of the list [hosts] of [execute]: the name of a [HOST_]
    section, or a dictionary of [read_smokeping_config] with the values
    stored under its keys ['host'] and ['name'], which are match objects
    (or [None]), not texts. *)
Inductive HostEntry : Type :=
| ConfigSection (section : string)
| SmokepingHost (host : re.Match) (name : option re.Match).

(** [[section for section in config.sections()
      if section.startswith('HOST_')]] *)
Definition config_hosts (config : Config) : list HostEntry :=
  map ConfigSection
      (filter (fun section => startswith section "HOST_") (map fst config)).

Section ReadConfig.

(** The file system: the lines of the regular file at a path, as
    iterating over the open file yields them, or [None] when the path is
    not a regular file. *)
Variable file_lines : string -> option (list string).

(** One iteration of the loop over the lines, on the pair of lists
    [(hosts, names)]. Both lists receive what [re.match] returned, not a
    group of it; a title line appends the match of the host expression
    on that same line to [names]. *)
Definition smokeping_body (acc : list re.Match * list (option re.Match))
           (line : string) : list re.Match * list (option re.Match) :=
  let '(hosts, names) := acc in
  let host := re_match host_regex line in
  let name := re_match title_regex line in
  let hosts := match host with Some h => hosts ++ [h] | None => hosts end in
  let names := match name with Some _ => names ++ [host] | None => names end in
  (hosts, names).

(** [config_file] is [None] when [execute] found no path. [None == '']
    is false, and [os.path.isfile(None)] raises [TypeError]. *)
Definition read_smokeping_config (config_file : option string)
  : result (option (list HostEntry)) * list LogRecord :=
  match config_file with
  | None => (Raise TypeError, [])
  | Some EmptyString => (Ok None, [])
  | Some path =>
      match file_lines path with
      | None =>
          (Ok None,
           [(ERROR, ("smokeping config " ++ dq ++ path ++ dq
                       ++ " does not seem to be a file.")%string)])
      | Some lines =>
          let '(hosts, names) := fold_left smokeping_body lines ([], []) in
          if negb (List.length hosts =? List.length names)%nat then
            (Ok None,
             [(ERROR, "Cannot parse smokeping config file. We need as much titles as host entries.")])
          else
            (Ok (Some (map (fun '(host, name) => SmokepingHost host name)
                           (combine hosts names))), [])
      end
  end.

(** The first block of [execute]: the [HOST_] sections, then the hosts
    of the smokeping configuration when the reader returned a non-empty
    list; [sys.exit(20)] without any host. *)
Definition execute_hosts (config : Config)
  : result (list HostEntry) * list LogRecord :=
  let hosts := config_hosts config in
  let smokeping_config :=
    match config_get config "SMOKEPING_SOURCE" "smokeping_config_path" with
    | Ok path => Ok (Some path)
    | Raise KeyError => Ok None
    | Raise e => Raise e
    end in
  match smokeping_config with
  | Raise e => (Raise e, [])
  | Ok smokeping_config =>
      match read_smokeping_config smokeping_config with
      | (Raise e, log) => (Raise e, log)
      | (Ok smokeping_hosts, log) =>
          let hosts :=
            match smokeping_hosts with
            | Some (h :: more) => hosts ++ h :: more
            | _ => hosts
            end in
          match hosts with
          | [] => (Raise (SystemExit 20), log ++ [(INFO, "No valid hosts given.")])
          | _ => (Ok hosts, log)
          end
      end
  end.

End ReadConfig.

(** The [try] block that reads the interval between traceroute
    executions. Options are strings, so [int] raises [ValueError] on a bad
    one; the handlers cover [KeyError] and [TypeError]. *)
Definition execute_interval (config : Config) : result Z * list LogRecord :=
  match (value <- config_get config "TRACEROUTE_HISTORY" "interval" ;;
         py_int value) with
  | Ok interval => (Ok interval, [])
  | Raise KeyError => (Ok 3600%Z, [])
  | Raise TypeError =>
      (Ok 3600%Z, [(ERROR, "Bogus interval value. Using default value.")])
  | Raise e => (Raise e, [])
  end.

Definition execute_delete_history_days (config : Config)
  : result (option Z) * list LogRecord :=
  match (value <- config_get config "TRACEROUTE_HISTORY" "delete_history_days" ;;
         py_int value) with
  | Ok days => (Ok (Some days), [])
  | Raise KeyError => (Ok None, [])
  | Raise TypeError =>
      (Ok None,
       [(ERROR, "Bogus delete_history_days value. Deactivating cleanup.")])
  | Raise e => (Raise e, [])
  end.

Definition execute_minimum_keep (config : Config) : result Z * list LogRecord :=
  match (value <- config_get config "TRACEROUTE_HISTORY" "minimum_keep" ;;
         py_int value) with
  | Ok keep => (Ok keep, [])
  | Raise KeyError => (Ok 100%Z, [])
  | Raise TypeError =>
      (Ok 100%Z, [(ERROR, "Bogus minimum_keep value. Using default.")])
  | Raise e => (Raise e, [])
  end.

(** What [execute] has computed when it starts to register jobs. *)
Record Settings : Type := mkSettings {
  hosts : list HostEntry;
  interval : Z;
  delete_history_days : option Z;
  minimum_keep : Z
}.

(** [execute] up to the loop that registers the jobs. *)
Definition execute_setup (file_lines : string -> option (list string))
           (config : Config) : result Settings * list LogRecord :=
  match execute_hosts file_lines config with
  | (Raise e, log) => (Raise e, log)
  | (Ok hosts, log1) =>
      match execute_interval config with
      | (Raise e, log2) => (Raise e, log1 ++ log2)
      | (Ok interval, log2) =>
          match execute_delete_history_days config with
          | (Raise e, log3) => (Raise e, log1 ++ log2 ++ log3)
          | (Ok days, log3) =>
              match execute_minimum_keep config with
              | (Raise e, log4) => (Raise e, log1 ++ log2 ++ log3 ++ log4)
              | (Ok keep, log4) =>
                  (Ok (mkSettings hosts interval days keep),
                   log1 ++ log2 ++ log3 ++ log4)
              end
          end
      end
  end.

(* ================================================================== *)
(** * The renderer, as the specification words it *)

(** The line is a hop line whose 0-based index is in the set: its first
    whitespace-delimited token parses as an integer [n], and [n - 1] is a
    member of [different_hops]. *)
Definition highlighted_line (different_hops : list nat) (line : string)
  : Prop :=
  exists token rest n d,
    py_split line = token :: rest
    /\ py_int token = Ok n
    /\ In d different_hops
    /\ Z.of_nat d = (n - 1)%Z.

(** [piece] is what the renderer emits for [line]: the line between the
    two markers when it is highlighted, the line unchanged otherwise, with
    the line feed that ends every emitted line. *)
Definition rendered_as (different_hops : list nat) (color end_color : string)
           (line piece : string) : Prop :=
  (highlighted_line different_hops line
   /\ piece = (color ++ line ++ end_color ++ nl)%string)
  \/ (~ highlighted_line different_hops line
      /\ piece = (line ++ nl)%string).

(** What one iteration of the loop of [_console_output] appends to the
    accumulator. *)
Definition emitted (different_hops : list nat) (end_color color : string)
           (line : string) : string :=
  match hop_index line with
  | Ok index =>
      if py_in index different_hops
      then (color ++ line ++ end_color ++ nl)%string
      else (line ++ nl)%string
  | Raise _ => (line ++ nl)%string
  end.

(* ================================================================== *)
(** * The update, as the specification words it *)

(** The most recent stored snapshot of a target: the last one of its
    snapshots in the order in which they were stored. *)
Definition most_recent (target : Target.t) (db : Db) : option Traceroute.t :=
  hd_error (rev (traceroutes_of target db)).

(* ================================================================== *)
(** * The readers, as the specification words them *)

(** A host directive and a title directive of a smokeping configuration:
    a line that the respective expression matches. *)
Definition is_host_directive (line : string) : bool :=
  match host_regex line with Some _ => true | None => false end.

Definition is_title_directive (line : string) : bool :=
  match title_regex line with Some _ => true | None => false end.

(* ================================================================== *)
(** * Sample data *)

Module Sample.

(** Two outputs of [traceroute] and their parsed form: the second
    reaches its third hop through another router and is one hop longer.
    The second hop answered neither of them. In the text that follows
    the hop number, [trparse] makes one probe for every round-trip time
    and for every star that stands between whitespace; of the two stars
    of the second hop none does, so that hop is parsed without any
    probe. *)
Definition trace_a : string :=
  ("traceroute to example.org (93.184.216.34), 30 hops max" ++ nl
   ++ " 1  gw.lan (192.168.1.1)  0.511 ms  0.420 ms" ++ nl
   ++ " 2  * *" ++ nl
   ++ " 3  core1.isp.net (10.10.0.1)  8.102 ms  8.040 ms" ++ nl)%string.

Definition trace_b : string :=
  ("traceroute to example.org (93.184.216.34), 30 hops max" ++ nl
   ++ " 1  gw.lan (192.168.1.1)  0.498 ms  0.431 ms" ++ nl
   ++ " 2  * *" ++ nl
   ++ " 3  core2.isp.net (10.10.0.2)  9.310 ms  9.120 ms" ++ nl
   ++ " 4  example.org (93.184.216.34)  12.001 ms  11.870 ms" ++ nl)%string.

Definition probe (name ip : string) : trparse.Probe :=
  trparse.mkProbe (Some name) (Some ip).

(** A probe that timed out: neither a name nor an address. *)
Definition timeout : trparse.Probe := trparse.mkProbe None None.

Definition parsed_a : trparse.Traceroute :=
  trparse.mkTraceroute "example.org" "93.184.216.34"
    [ trparse.mkHop 1 [probe "gw.lan" "192.168.1.1";
                       probe "gw.lan" "192.168.1.1"];
      trparse.mkHop 2 [];
      trparse.mkHop 3 [probe "core1.isp.net" "10.10.0.1";
                       probe "core1.isp.net" "10.10.0.1"] ].

Definition parsed_b : trparse.Traceroute :=
  trparse.mkTraceroute "example.org" "93.184.216.34"
    [ trparse.mkHop 1 [probe "gw.lan" "192.168.1.1";
                       probe "gw.lan" "192.168.1.1"];
      trparse.mkHop 2 [];
      trparse.mkHop 3 [probe "core2.isp.net" "10.10.0.2";
                       probe "core2.isp.net" "10.10.0.2"];
      trparse.mkHop 4 [probe "example.org" "93.184.216.34";
                       probe "example.org" "93.184.216.34"] ].

(** The parser on the two samples, as a table. The table is only used
    on its two entries; it has to answer every text, and answers any
    other one with a trace without hops. *)
Definition loads (raw : string) : trparse.Traceroute :=
  if String.eqb raw trace_a then parsed_a
  else if String.eqb raw trace_b then parsed_b
  else trparse.mkTraceroute "" "" [].

(** A probe collaborator that answers every command with [trace_b]. *)
Definition command_runner (command encoding : string) : Z * string :=
  (0%Z, trace_b).

Definition day : Z := microseconds_per_day.

(** Midnight of a day of July 2021. *)
Definition now : datetime := (737999 * day)%Z.

Definition router_a : Target.t := Target.mk 1 "router-a" "192.0.2.1".

(** One target with three snapshots, taken 90, 60 and 45 days ago. *)
Definition db : Db :=
  mkDb [router_a]
       [ Traceroute.mk 1 trace_a (now - 90 * day)%Z 1;
         Traceroute.mk 2 trace_b (now - 60 * day)%Z 1;
         Traceroute.mk 3 trace_a (now - 45 * day)%Z 1 ].

(** A database without any target. *)
Definition empty_db : Db := mkDb [] [].

(** A smokeping configuration with three host lines and two title
    lines, and the file system that holds it. *)
Definition smokeping_lines : list string :=
  [ ("+ router-a" ++ nl)%string;
    ("title = Router A" ++ nl)%string;
    ("host = 192.0.2.1" ++ nl)%string;
    ("+ router-b" ++ nl)%string;
    ("host = 192.0.2.2" ++ nl)%string;
    ("+ router-c" ++ nl)%string;
    ("title = Router C" ++ nl)%string;
    ("host = 192.0.2.3" ++ nl)%string ].

Definition file_lines (path : string) : option (list string) :=
  if String.eqb path "/etc/smokeping/config" then Some smokeping_lines
  else None.

Definition config : Config :=
  [ ("TRACEROUTE_HISTORY", [("interval", "abc")]);
    ("SMOKEPING_SOURCE",
     [("smokeping_config_path", "/etc/smokeping/config")]);
    ("HOST_router-a",
     [("name", "router-a"); ("address", "192.0.2.1"); ("groups", "")]) ].

End Sample.

(* ================================================================== *)
(** * The query surface: [get_last_traceroutes] and its formatting *)

(** [s.replace(old, new)] for a one-character [old]. *)
Fixpoint replace_char (old : ascii) (new : string) (s : string) : string :=
  match s with
  | EmptyString => EmptyString
  | String c s' =>
      if Ascii.eqb c old then (new ++ replace_char old new s')%string
      else String c (replace_char old new s')
  end.

(** [x in s] for a character and a string. *)
Fixpoint contains_char (c : ascii) (s : string) : bool :=
  match s with
  | EmptyString => false
  | String c' s' => Ascii.eqb c' c || contains_char c s'
  end.

(** [get_last_traceroutes]: [Ok None] stands for the value [False] the
    function returns for an unknown target. [limit] is [None] for "no
    limit"; a negative limit, whose meaning is the backend's, is left
    out of the embedding. *)
Definition get_last_traceroutes (name : string) (limit : option nat)
           (db : Db) : result (option (list Traceroute.t)) :=
  match one (targets_named name db) with
  | Raise NoResultFound => Ok None
  | Raise e => Raise e
  | Ok target =>
      let newest_first := order_by_id_desc (traceroutes_of target db) in
      Ok (Some (match limit with
                | Some n => firstn n newest_first
                | None => newest_first
                end))
  end.

(** What [get_last_traceroutes_formatted] returns: a text, or the empty
    list it passes on when the target has no snapshot. *)
Inductive Formatted : Type :=
| Text (output : string)
| EmptyList.

Section Queries.

Variable loads : string -> trparse.Traceroute.
Variable str_of_datetime : datetime -> string.
Variable colorama : option (string * string).
(** [Traceroute.__repr__], defined with the table in [sql_declaration]. *)
Variable repr : Traceroute.t -> string.

(** The loop [for i in range(length - 2)] that appends the
    representation of [traceroutes[i + 2]]. *)
Definition append_older (traceroutes : list Traceroute.t) (output : string)
  : result string :=
  fold_left
    (fun acc i =>
       output <- acc ;;
       traceroute <- getitem traceroutes (i + 2) ;;
       Ok (output ++ repr traceroute)%string)
    (seq 0 (List.length traceroutes - 2))
    (Ok output).

Definition get_last_traceroutes_formatted (name : string)
           (limit : option nat) (formatting : string) (db : Db)
  : result Formatted * list LogRecord :=
  match get_last_traceroutes name limit db with
  | Raise e => (Raise e, [])
  | Ok None =>
      (Ok (Text "Target not found in database."),
       [(WARNING, ("Target " ++ name
                     ++ " has been requested but does not exist in database.")%string)])
  | Ok (Some traceroutes) =>
      let output :=
        match traceroutes with
        | [] => Ok EmptyList
        | first_one :: others =>
            let output :=
              ("Target has " ++ str_of_nat (List.length traceroutes)
                 ++ " tracreoute entries.")%string in
            match others with
            | second_one :: _ =>
                text <- append_older traceroutes
                          (output
                             ++ traceroutes_difference_formatted
                                  loads str_of_datetime colorama
                                  first_one second_one formatting)%string ;;
                Ok (Text text)
            | [] =>
                Ok (Text (fold_left
                            (fun output traceroute =>
                               (output ++ repr traceroute)%string)
                            traceroutes output))
            end
        end in
      match output with
      | Raise e => (Raise e, [])
      | Ok (Text text) =>
          if String.eqb formatting "web"
          then (Ok (Text (replace_char nl_char "<br />" text)), [])
          else (Ok (Text text), [])
      | Ok EmptyList => (Ok EmptyList, [])
      end
  end.

(** [target.groups], the relationship declared in [sql_declaration]. *)
Variable groups_of : Target.t -> list string.

(** [list_targets]: one dictionary per target, here the triple of the
    values under ['name'], ['address'] and ['groups']. *)
Definition list_targets (db : Db) : list (string * string * list string) :=
  fold_left
    (fun output target =>
       output ++ [(Target.name target, Target.address target,
                   groups_of target)])
    (targets db) [].

End Queries.

(* ================================================================== *)
(** * The command line: the argument of [--get-traceroutes-for] *)

(** [host, limit = arg.split(','); limit = int(limit)], and the handler
    of [ValueError] and [TypeError] that takes the whole argument as the
    host. Unpacking anything but two fields raises [ValueError]. *)
Definition get_traceroutes_for (arg : string) : string * option Z :=
  let parsed :=
    match split_on "," arg with
    | [host; limit] => limit <- py_int limit ;; Ok (host, Some limit)
    | _ => Raise ValueError
    end in
  match parsed with
  | Ok host_limit => host_limit
  | Raise _ => (arg, None)
  end.

(** The unique constraint on the name of a target. *)
Definition unique_names (db : Db) : Prop :=
  NoDup (map Target.name (targets db)).

(** The snapshots of a target that are older than a threshold: the rows
    the subquery of [delete_old_traceroutes] filters. *)
Definition old_rows (target : Target.t) (before : datetime) (db : Db)
  : list Traceroute.t :=
  filter (fun row => of_target target row
                     && (Traceroute.creation_date row <? before)%Z)
         (traceroutes db).

(** The matches of the host directives of a file, in file order: each
    carries its line and the address the expression captured. *)
Definition host_matches (lines : list string) : list re.Match :=
  flat_map (fun line => match host_regex line with
                        | Some address => [re.mkMatch line address]
                        | None => []
                        end) lines.

(** Whether every character of a text passes a test. *)
Fixpoint all_chars (f : ascii -> bool) (s : string) : bool :=
  match s with
  | EmptyString => true
  | String c s' => f c && all_chars f s'
  end.

(** The value of a decimal numeral read after the digits whose value is
    [acc]. *)
Fixpoint uint_val (d : Decimal.uint) (acc : Z) : Z :=
  match d with
  | Decimal.Nil => acc
  | Decimal.D0 d => uint_val d (10 * acc)
  | Decimal.D1 d => uint_val d (10 * acc + 1)
  | Decimal.D2 d => uint_val d (10 * acc + 2)
  | Decimal.D3 d => uint_val d (10 * acc + 3)
  | Decimal.D4 d => uint_val d (10 * acc + 4)
  | Decimal.D5 d => uint_val d (10 * acc + 5)
  | Decimal.D6 d => uint_val d (10 * acc + 6)
  | Decimal.D7 d => uint_val d (10 * acc + 7)
  | Decimal.D8 d => uint_val d (10 * acc + 8)
  | Decimal.D9 d => uint_val d (10 * acc + 9)
  end%Z.

Definition is_digit (c : ascii) : bool :=
  match digit_of c with Some _ => true | None => false end.

(* ================================================================== *)
(** * More sample data *)

Module MoreSamples.

Definition header : string :=
  ("traceroute to example.org (93.184.216.34), 30 hops max" ++ nl)%string.

(** A text with the header line only: the parser finds no hop. *)
Definition header_only : string := header.

Definition parsed_header_only : trparse.Traceroute :=
  trparse.mkTraceroute "example.org" "93.184.216.34" [].

(** Three routes on which every hop answered: a route, the same route
    with another router at its third hop, and the same route with a
    second reply from another router at its first hop, which
    [traceroute] prints on a line of its own; a line without a hop
    number adds its probes to the hop before it. *)
Definition trace_c : string :=
  (header
   ++ " 1  gw.lan (192.168.1.1)  0.507 ms  0.433 ms" ++ nl
   ++ " 2  edge.isp.net (10.0.0.1)  4.120 ms  4.087 ms" ++ nl
   ++ " 3  core1.isp.net (10.10.0.1)  8.902 ms  8.440 ms" ++ nl)%string.

Definition trace_d : string :=
  (header
   ++ " 1  gw.lan (192.168.1.1)  0.498 ms  0.431 ms" ++ nl
   ++ " 2  edge.isp.net (10.0.0.1)  4.310 ms  4.102 ms" ++ nl
   ++ " 3  core2.isp.net (10.10.0.2)  9.310 ms  9.120 ms" ++ nl)%string.

Definition trace_e : string :=
  (header
   ++ " 1  gw.lan (192.168.1.1)  0.511 ms" ++ nl
   ++ "    gw2.lan (192.168.1.2)  0.912 ms" ++ nl
   ++ " 2  edge.isp.net (10.0.0.1)  4.120 ms  4.087 ms" ++ nl
   ++ " 3  core1.isp.net (10.10.0.1)  8.102 ms  8.040 ms" ++ nl)%string.

(** Two routes whose second hop answered none of three probes. Of the
    three stars of such a line the middle one stands between
    whitespace: the hop is parsed with one probe, which has no
    address. *)
Definition trace_f : string :=
  (header
   ++ " 1  gw.lan (192.168.1.1)  0.511 ms  0.420 ms" ++ nl
   ++ " 2  * * *" ++ nl
   ++ " 3  core1.isp.net (10.10.0.1)  8.102 ms  8.040 ms" ++ nl)%string.

Definition trace_g : string :=
  (header
   ++ " 1  gw.lan (192.168.1.1)  0.498 ms  0.431 ms" ++ nl
   ++ " 2  * * *" ++ nl
   ++ " 3  core2.isp.net (10.10.0.2)  9.310 ms  9.120 ms" ++ nl)%string.

Definition two_replies (name ip : string) : list trparse.Probe :=
  [Sample.probe name ip; Sample.probe name ip].

Definition parsed_c : trparse.Traceroute :=
  trparse.mkTraceroute "example.org" "93.184.216.34"
    [ trparse.mkHop 1 (two_replies "gw.lan" "192.168.1.1");
      trparse.mkHop 2 (two_replies "edge.isp.net" "10.0.0.1");
      trparse.mkHop 3 (two_replies "core1.isp.net" "10.10.0.1") ].

Definition parsed_d : trparse.Traceroute :=
  trparse.mkTraceroute "example.org" "93.184.216.34"
    [ trparse.mkHop 1 (two_replies "gw.lan" "192.168.1.1");
      trparse.mkHop 2 (two_replies "edge.isp.net" "10.0.0.1");
      trparse.mkHop 3 (two_replies "core2.isp.net" "10.10.0.2") ].

Definition parsed_e : trparse.Traceroute :=
  trparse.mkTraceroute "example.org" "93.184.216.34"
    [ trparse.mkHop 1 [Sample.probe "gw.lan" "192.168.1.1";
                       Sample.probe "gw2.lan" "192.168.1.2"];
      trparse.mkHop 2 (two_replies "edge.isp.net" "10.0.0.1");
      trparse.mkHop 3 (two_replies "core1.isp.net" "10.10.0.1") ].

Definition parsed_f : trparse.Traceroute :=
  trparse.mkTraceroute "example.org" "93.184.216.34"
    [ trparse.mkHop 1 (two_replies "gw.lan" "192.168.1.1");
      trparse.mkHop 2 [Sample.timeout];
      trparse.mkHop 3 (two_replies "core1.isp.net" "10.10.0.1") ].

Definition parsed_g : trparse.Traceroute :=
  trparse.mkTraceroute "example.org" "93.184.216.34"
    [ trparse.mkHop 1 (two_replies "gw.lan" "192.168.1.1");
      trparse.mkHop 2 [Sample.timeout];
      trparse.mkHop 3 (two_replies "core2.isp.net" "10.10.0.2") ].

(** The parser on the sample traces, as a table. *)
Definition loads (raw : string) : trparse.Traceroute :=
  if String.eqb raw header_only then parsed_header_only
  else if String.eqb raw trace_c then parsed_c
  else if String.eqb raw trace_d then parsed_d
  else if String.eqb raw trace_e then parsed_e
  else if String.eqb raw trace_f then parsed_f
  else if String.eqb raw trace_g then parsed_g
  else Sample.loads raw.

(** A probe collaborator that answers every command with [trace_d]. *)
Definition command_runner (command encoding : string) : Z * string :=
  (0%Z, trace_d).

Definition router_b : Target.t := Target.mk 2 "router-b" "192.0.2.2".

(** The sample database with a second target and one snapshot of it. *)
Definition db : Db :=
  mkDb [Sample.router_a; router_b]
       (traceroutes Sample.db
        ++ [Traceroute.mk 4 Sample.trace_b (Sample.now - 50 * Sample.day)%Z 2]).

(** A database whose only target has two snapshots of routes on which
    every hop answered. *)
Definition resolved_db : Db :=
  mkDb [Sample.router_a]
       [ Traceroute.mk 1 trace_d (Sample.now - 2 * Sample.day)%Z 1;
         Traceroute.mk 2 trace_c (Sample.now - 1 * Sample.day)%Z 1 ].

(** A smokeping file with as many titles as hosts. *)
Definition smokeping_lines : list string :=
  [ ("+ router-a" ++ nl)%string;
    ("title = Router A" ++ nl)%string;
    ("host = 192.0.2.1" ++ nl)%string;
    ("+ router-b" ++ nl)%string;
    ("title = Router B" ++ nl)%string;
    ("host = 192.0.2.2" ++ nl)%string ].

Definition file_lines (path : string) : option (list string) :=
  if String.eqb path "/etc/smokeping/Targets" then Some smokeping_lines
  else None.

(** The match objects of the two host lines of the file. *)
Definition host_a : re.Match :=
  re.mkMatch ("host = 192.0.2.1" ++ nl) "192.0.2.1".
Definition host_b : re.Match :=
  re.mkMatch ("host = 192.0.2.2" ++ nl) "192.0.2.2".

(** A configuration that names the file above and sets none of the
    optional values, and one without the smokeping section. *)
Definition config : Config :=
  [ ("TRACEROUTE_HISTORY", [("database_driver", "sqlite")]);
    ("SMOKEPING_SOURCE",
     [("smokeping_config_path", "/etc/smokeping/Targets")]);
    ("HOST_router-a",
     [("name", "router-a"); ("address", "192.0.2.1"); ("groups", "")]) ].

Definition config_without_smokeping : Config :=
  [ ("TRACEROUTE_HISTORY", [("interval", "600")]);
    ("HOST_router-a",
     [("name", "router-a"); ("address", "192.0.2.1"); ("groups", "")]) ].

(** A representation of a snapshot and of a timestamp. *)
Definition repr (row : Traceroute.t) : string :=
  ("<Traceroute " ++ str_of_nat (Traceroute.id row) ++ ">" ++ nl)%string.

Definition groups_of (target : Target.t) : list string := [].

End MoreSamples.

(* ================================================================== *)
(** * Properties of the hop comparison *)

Lemma option_string_eqb_spec (a b : option string) :
  option_string_eqb a b = true <-> a = b.
Proof.
  destruct a as [x|], b as [y|]; simpl; split; intro H;
    try discriminate; try reflexivity.
  - apply String.eqb_eq in H. now subst.
  - inversion H. apply String.eqb_refl.
Qed.

Lemma getitem_Ok {A : Type} (l : list A) (i : nat) (x : A) :
  getitem l i = Ok x <-> nth_error l i = Some x.
Proof.
  unfold getitem. destruct (nth_error l i); split; intro H;
    inversion H; reflexivity.
Qed.

(** Only [IndexError] leaves the subscripts of the comparison. *)
Lemma first_probe_ip_raises (tr : trparse.Traceroute) (i : nat) (e : exn) :
  first_probe_ip tr i = Raise e -> e = IndexError.
Proof.
  unfold first_probe_ip, bind, getitem.
  destruct (nth_error (trparse.hops tr) i) as [hop|]; [|congruence].
  destruct (nth_error (trparse.probes hop) 0); congruence.
Qed.

Lemma first_probe_ip_address (tr : trparse.Traceroute) (i : nat)
      (a : option string) :
  first_probe_ip tr i = Ok a <-> first_address tr i = Some a.
Proof.
  unfold first_probe_ip, first_address, bind, getitem.
  destruct (nth_error (trparse.hops tr) i) as [hop|]; [|split; discriminate].
  destruct (trparse.probes hop) as [|p ps]; simpl;
    split; intro H; inversion H; reflexivity.
Qed.

Lemma first_probe_ip_None (tr : trparse.Traceroute) (i : nat) :
  first_probe_ip tr i = Raise IndexError <-> first_address tr i = None.
Proof.
  unfold first_probe_ip, first_address, bind, getitem.
  destruct (nth_error (trparse.hops tr) i) as [hop|]; [|split; reflexivity].
  destruct (trparse.probes hop) as [|p ps]; simpl;
    split; intro H; try discriminate; reflexivity.
Qed.

(** An iteration leaves the list alone exactly when both traces have a
    first probe at the index and the two addresses are equal. *)
Lemma marks_false (tr1 tr2 : trparse.Traceroute) (i : nat) :
  marks tr1 tr2 i = false <->
  exists a, first_address tr1 i = Some a /\ first_address tr2 i = Some a.
Proof.
  unfold marks, hops_differ, bind.
  destruct (first_probe_ip tr1 i) as [a1|e1] eqn:E1.
  - destruct (first_probe_ip tr2 i) as [a2|e2] eqn:E2.
    + apply first_probe_ip_address in E1, E2. rewrite E1, E2.
      rewrite negb_false_iff, option_string_eqb_spec. split.
      * intros ->. now exists a2.
      * intros [a [H1 H2]]. congruence.
    + apply first_probe_ip_raises in E2 as He. subst e2.
      apply first_probe_ip_None in E2. rewrite E2. split; [discriminate|].
      intros [a [_ H]]. discriminate.
  - apply first_probe_ip_raises in E1 as He. subst e1.
    apply first_probe_ip_None in E1. rewrite E1. split; [discriminate|].
    intros [a [H _]]. discriminate.
Qed.

(** The loop collects, in order, the indices whose iteration appends. *)
Lemma fold_diff_body (tr1 tr2 : trparse.Traceroute) (indices acc : list nat) :
  fold_left (diff_body tr1 tr2) indices acc
  = acc ++ filter (marks tr1 tr2) indices.
Proof.
  revert acc. induction indices as [|i rest IH]; intro acc; simpl.
  - now rewrite app_nil_r.
  - rewrite IH. unfold diff_body, marks.
    destruct (hops_differ tr1 tr2 i) as [[|]|e]; simpl;
      now rewrite <- ?app_assoc.
Qed.

Lemma filter_seq_sorted (f : nat -> bool) (n start : nat) :
  StronglySorted lt (filter f (seq start n)).
Proof.
  revert start. induction n as [|n IH]; intro start; simpl.
  - constructor.
  - destruct (f start); [|apply IH].
    constructor; [apply IH|].
    apply Forall_forall. intros x Hx.
    apply filter_In in Hx as [Hx _]. apply in_seq in Hx. lia.
Qed.

Section DiffFacts.

Variable loads : string -> trparse.Traceroute.

Lemma diff_traceroutes_filter (A B : string) :
  diff_traceroutes loads A B
  = filter (marks (loads A) (loads B)) (seq 0 (max_hops loads A B)).
Proof. unfold diff_traceroutes. now rewrite fold_diff_body. Qed.

Lemma In_diff_traceroutes (A B : string) (i : nat) :
  In i (diff_traceroutes loads A B) <->
  i < max_hops loads A B /\ marks (loads A) (loads B) i = true.
Proof.
  rewrite diff_traceroutes_filter, filter_In, in_seq.
  intuition lia.
Qed.

(** C10. The hop indices that [diff_traceroutes] returns are in strictly
    increasing order, without duplicates, and each lies in
    [0, max(len(hops_a), len(hops_b))). *)
Theorem diff_traceroutes_shape (A B : string) :
  StronglySorted lt (diff_traceroutes loads A B)
  /\ NoDup (diff_traceroutes loads A B)
  /\ Forall (fun i => 0 <= i < Nat.max
                                 (List.length (trparse.hops (loads A)))
                                 (List.length (trparse.hops (loads B))))
            (diff_traceroutes loads A B).
Proof.
  split; [|split].
  - rewrite diff_traceroutes_filter. apply filter_seq_sorted.
  - rewrite diff_traceroutes_filter. apply NoDup_filter, seq_NoDup.
  - apply Forall_forall. intros i Hi.
    apply In_diff_traceroutes in Hi. fold (max_hops loads A B). lia.
Qed.

Lemma first_address_probes (tr : trparse.Traceroute) (i : nat) :
  hops_have_probes tr -> i < List.length (trparse.hops tr) ->
  exists a, first_address tr i = Some a.
Proof.
  intros Hwf Hi. unfold first_address.
  destruct (nth_error (trparse.hops tr) i) as [hop|] eqn:E.
  - apply nth_error_In in E.
    unfold hops_have_probes in Hwf. rewrite Forall_forall in Hwf.
    specialize (Hwf hop E).
    destruct (trparse.probes hop) as [|p ps]; [congruence|].
    simpl. eauto.
  - apply nth_error_None in E. lia.
Qed.

Lemma first_address_beyond (tr : trparse.Traceroute) (i : nat) :
  List.length (trparse.hops tr) <= i -> first_address tr i = None.
Proof.
  intro Hi. unfold first_address.
  now rewrite (proj2 (nth_error_None (trparse.hops tr) i) Hi).
Qed.

Lemma marks_true (tr1 tr2 : trparse.Traceroute) (i : nat) :
  marks tr1 tr2 i = true <->
  ~ exists a, first_address tr1 i = Some a /\ first_address tr2 i = Some a.
Proof.
  rewrite <- marks_false. destruct (marks tr1 tr2 i); intuition congruence.
Qed.

(** A trace compared with itself: the result lists the hops that have no
    probe, for which the subscript [probes[0]] raises [IndexError]. *)
Lemma diff_traceroutes_self (A : string) :
  diff_traceroutes loads A A
  = filter (probeless (loads A))
           (seq 0 (List.length (trparse.hops (loads A)))).
Proof.
  rewrite diff_traceroutes_filter. unfold max_hops. rewrite Nat.max_id.
  apply filter_ext_in. intros i Hi. apply in_seq in Hi.
  unfold marks, hops_differ, first_probe_ip, probeless, bind, getitem.
  destruct (nth_error (trparse.hops (loads A)) i) as [hop|] eqn:E.
  - destruct (trparse.probes hop) as [|p ps]; simpl; [reflexivity|].
    rewrite (proj2 (option_string_eqb_spec _ _) eq_refl). reflexivity.
  - apply nth_error_None in E. lia.
Qed.

Lemma probeless_hop (tr : trparse.Traceroute) :
  hops_have_probes tr <->
  forall i, i < List.length (trparse.hops tr) -> probeless tr i = false.
Proof.
  unfold hops_have_probes, probeless. rewrite Forall_forall. split.
  - intros Hwf i Hi.
    destruct (nth_error (trparse.hops tr) i) as [hop|] eqn:E; [|reflexivity].
    apply nth_error_In in E. specialize (Hwf hop E).
    destruct (trparse.probes hop); [congruence | reflexivity].
  - intros Hall hop Hin.
    destruct (In_nth_error _ _ Hin) as [i E].
    assert (Hi : i < List.length (trparse.hops tr))
      by (apply nth_error_Some; congruence).
    specialize (Hall i Hi). rewrite E in Hall.
    destruct (trparse.probes hop); [discriminate | discriminate].
Qed.

(** C4. A trace compared with an identical copy of itself: for every raw
    text [A], [diff_traceroutes A A] lists exactly the hops of [A] that
    were parsed without any probe. It is the empty list if and only if
    every parsed hop of [A] carries at least one probe. *)
Theorem diff_traceroutes_refl (A : string) :
  diff_traceroutes loads A A
  = filter (probeless (loads A))
           (seq 0 (List.length (trparse.hops (loads A))))
  /\ (diff_traceroutes loads A A = [] <-> hops_have_probes (loads A)).
Proof.
  split; [apply diff_traceroutes_self|].
  rewrite diff_traceroutes_self, probeless_hop. split.
  - intros Hnil i Hi.
    destruct (probeless (loads A) i) eqn:E; [|reflexivity].
    assert (Hin : In i (filter (probeless (loads A))
                               (seq 0 (List.length (trparse.hops (loads A)))))).
    { apply filter_In. split; [apply in_seq; lia | exact E]. }
    rewrite Hnil in Hin. contradiction.
  - intro Hall.
    destruct (filter (probeless (loads A))
                     (seq 0 (List.length (trparse.hops (loads A)))))
      as [|i rest] eqn:E; [reflexivity|].
    assert (Hin : In i (filter (probeless (loads A))
                               (seq 0 (List.length (trparse.hops (loads A))))))
      by (rewrite E; now left).
    apply filter_In in Hin as [Hi Hp]. apply in_seq in Hi.
    rewrite Hall in Hp by lia. discriminate.
Qed.

(** C5. For every pair of raw texts and every index [i]: [i] is in
    [diff_traceroutes A B] exactly when [i] is below
    [max(len(A.hops), len(B.hops))] and one side has no hop at [i], or
    the hop of one side has no probe, or the first-probe addresses of
    the two hops differ. When [B] has more hops than [A], every index
    from [len(A.hops)] to [len(B.hops) - 1] is in the result. *)
Theorem diff_traceroutes_marks (A B : string) :
  (forall i,
      In i (diff_traceroutes loads A B) <->
      i < Nat.max (List.length (trparse.hops (loads A)))
                  (List.length (trparse.hops (loads B)))
      /\ (nth_error (trparse.hops (loads A)) i = None
          \/ nth_error (trparse.hops (loads B)) i = None
          \/ probeless (loads A) i = true
          \/ probeless (loads B) i = true
          \/ first_address (loads A) i <> first_address (loads B) i))
  /\ (forall i,
        List.length (trparse.hops (loads A)) <= i
        < List.length (trparse.hops (loads B)) ->
        In i (diff_traceroutes loads A B)).
Proof.
  split.
  - intro i. rewrite In_diff_traceroutes, marks_true.
    fold (max_hops loads A B).
    apply and_iff_compat_l.
    unfold first_address, probeless.
    destruct (nth_error (trparse.hops (loads A)) i) as [hop_a|];
      [|split; [intros _; now left | intros _ [c [H _]]; discriminate]].
    destruct (nth_error (trparse.hops (loads B)) i) as [hop_b|];
      [|split; [intros _; right; now left
               | intros _ [c [_ H]]; discriminate]].
    destruct (trparse.probes hop_a) as [|pa rest_a]; simpl;
      [split; [intros _; right; right; now left
              | intros _ [c [H _]]; discriminate]|].
    destruct (trparse.probes hop_b) as [|pb rest_b]; simpl;
      [split; [intros _; right; right; right; now left
              | intros _ [c [_ H]]; discriminate]|].
    split.
    + intro Hne. right. right. right. right. intro Heq.
      apply Hne. exists (trparse.ip pa). split; congruence.
    + intros [H|[H|[H|[H|H]]]]; try discriminate.
      intros [c [H1 H2]]. congruence.
  - intros i [Hlo Hhi]. apply In_diff_traceroutes. split.
    + unfold max_hops. lia.
    + apply marks_true. rewrite (first_address_beyond _ Hlo).
      intros [c [H _]]. discriminate.
Qed.

End DiffFacts.

(* ================================================================== *)
(** * Properties of the renderer *)

Lemma string_app_assoc (a b c : string) :
  ((a ++ b) ++ c = a ++ (b ++ c))%string.
Proof. induction a as [|x a IH]; simpl; [reflexivity | now rewrite IH]. Qed.

Lemma string_app_nil_r (a : string) : (a ++ "" = a)%string.
Proof. induction a as [|x a IH]; simpl; [reflexivity | now rewrite IH]. Qed.

Lemma py_in_spec (x : Z) (l : list nat) :
  py_in x l = true <-> exists d, In d l /\ Z.of_nat d = x.
Proof.
  unfold py_in. rewrite existsb_exists.
  split; intros [d [Hd He]]; exists d; split; try assumption.
  - now apply Z.eqb_eq.
  - now apply Z.eqb_eq.
Qed.

Section RenderFacts.

Variable different_hops : list nat.
Variable end_color : string.
Variable color : string.

Lemma console_body_emitted (console_output line : string) :
  console_body different_hops end_color color console_output line
  = (console_output ++ emitted different_hops end_color color line)%string.
Proof.
  unfold console_body, emitted.
  destruct (hop_index line) as [index|e]; [|reflexivity].
  destruct (py_in index different_hops); reflexivity.
Qed.

Lemma fold_console_body (lines : list string) (console_output : string) :
  fold_left (console_body different_hops end_color color) lines console_output
  = (console_output
       ++ String.concat "" (map (emitted different_hops end_color color)
                                lines))%string.
Proof.
  revert console_output.
  induction lines as [|line rest IH]; intro console_output; simpl.
  - now rewrite string_app_nil_r.
  - rewrite IH, console_body_emitted, string_app_assoc. f_equal.
    destruct (map (emitted different_hops end_color color) rest)
      as [|p ps] eqn:E; simpl.
    + destruct rest; [|discriminate]. now rewrite string_app_nil_r.
    + destruct rest as [|l2 r2]; [discriminate|]. reflexivity.
Qed.

Lemma hop_index_highlighted (line : string) :
  (exists index, hop_index line = Ok index
                 /\ py_in index different_hops = true)
  <-> highlighted_line different_hops line.
Proof.
  unfold hop_index, highlighted_line, bind, getitem, py_split.
  destruct (split_ws line None) as [|token rest]; simpl.
  - split.
    + intros [index [H _]]. discriminate.
    + intros [token [rest [n [d [H _]]]]]. discriminate.
  - destruct (py_int token) as [n|e] eqn:E; split.
    + intros [index [H Hin]]. inversion H. subst index.
      apply py_in_spec in Hin as [d [Hd He]].
      exists token, rest, n, d. repeat split; assumption || reflexivity.
    + intros [token' [rest' [n' [d [H1 [H2 [H3 H4]]]]]]].
      inversion H1. subst token' rest'.
      assert (n' = n) by congruence. subst n'.
      exists (n - 1)%Z. split; [reflexivity|].
      apply py_in_spec. now exists d.
    + intros [index [H _]]. discriminate.
    + intros [token' [rest' [n' [d [H1 [H2 _]]]]]].
      inversion H1. subst token' rest'. congruence.
Qed.

Lemma emitted_rendered_as (line : string) :
  rendered_as different_hops color end_color line
              (emitted different_hops end_color color line).
Proof.
  unfold rendered_as, emitted.
  destruct (hop_index line) as [index|e] eqn:E.
  - destruct (py_in index different_hops) eqn:Hin.
    + left. split; [|reflexivity].
      apply hop_index_highlighted. now exists index.
    + right. split; [|reflexivity].
      intro H. apply hop_index_highlighted in H as [i [Hi Hp]].
      congruence.
  - right. split; [|reflexivity].
    intro H. apply hop_index_highlighted in H as [i [Hi _]]. congruence.
Qed.

End RenderFacts.

(** C6. The rendered body is the concatenation of one piece per line of
    the snapshot: a line whose first whitespace-delimited token parses as
    an integer [n] with [n - 1] in the diff set is wrapped in the highlight
    markers, every other line passes through unchanged; with an empty diff
    set no line is wrapped. *)
Theorem console_output_highlights (different_hops : list nat)
        (end_color color tr : string) :
  (exists pieces,
      _console_output different_hops end_color tr color
      = String.concat "" pieces
      /\ Forall2 (rendered_as different_hops color end_color)
                 (split_on nl_char tr) pieces)
  /\ _console_output [] end_color tr color
     = String.concat ""
         (map (fun line => (line ++ nl)%string) (split_on nl_char tr)).
Proof.
  split.
  - exists (map (emitted different_hops end_color color)
                (split_on nl_char tr)).
    split.
    + unfold _console_output. now rewrite fold_console_body.
    + induction (split_on nl_char tr) as [|line rest IH]; simpl;
        constructor; [apply emitted_rendered_as | exact IH].
  - unfold _console_output. rewrite fold_console_body. simpl. f_equal.
    apply map_ext. intro line. unfold emitted.
    destruct (hop_index line); reflexivity.
Qed.

(* ================================================================== *)
(** * Properties of the queries *)

Lemma insert_desc_perm (row : Traceroute.t) (sorted : list Traceroute.t) :
  Permutation (insert_desc row sorted) (row :: sorted).
Proof.
  induction sorted as [|r rest IH]; simpl.
  - apply Permutation_refl.
  - destruct (Traceroute.id r <=? Traceroute.id row)%nat.
    + apply Permutation_refl.
    + eapply perm_trans; [apply perm_skip, IH | apply perm_swap].
Qed.

Lemma order_by_id_desc_perm (rows : list Traceroute.t) :
  Permutation (order_by_id_desc rows) rows.
Proof.
  induction rows as [|row rest IH]; simpl.
  - apply perm_nil.
  - eapply perm_trans; [apply insert_desc_perm | apply perm_skip, IH].
Qed.

Lemma insert_desc_sorted (row : Traceroute.t) (sorted : list Traceroute.t) :
  StronglySorted id_ge sorted -> StronglySorted id_ge (insert_desc row sorted).
Proof.
  induction sorted as [|r rest IH]; intro Hs; simpl.
  - constructor; constructor.
  - inversion Hs as [|? ? Hrest Hall]; subst.
    destruct (Traceroute.id r <=? Traceroute.id row)%nat eqn:E.
    + apply Nat.leb_le in E. constructor; [assumption|].
      constructor; [exact E|].
      eapply Forall_impl; [|exact Hall].
      unfold id_ge. intros a Ha. lia.
    + apply Nat.leb_gt in E. constructor; [now apply IH|].
      apply Forall_forall. intros x Hx.
      apply (Permutation_in _ (insert_desc_perm row rest)) in Hx.
      destruct Hx as [<-|Hx].
      * unfold id_ge. lia.
      * rewrite Forall_forall in Hall. now apply Hall.
Qed.

Lemma order_by_id_desc_sorted (rows : list Traceroute.t) :
  StronglySorted id_ge (order_by_id_desc rows).
Proof.
  induction rows as [|row rest IH]; simpl.
  - constructor.
  - now apply insert_desc_sorted.
Qed.

Lemma firstn_incl {A : Type} (n : nat) (l : list A) (x : A) :
  In x (firstn n l) -> In x l.
Proof.
  revert l. induction n as [|n IH]; intros [|y l] H; simpl in *;
    try contradiction.
  destruct H as [->|H]; [now left | right; now apply IH].
Qed.

Lemma list_max_ge (ids : list nat) (i : nat) : In i ids -> i <= list_max ids.
Proof.
  intro H. assert (Hle : list_max ids <= list_max ids) by lia.
  apply list_max_le in Hle. rewrite Forall_forall in Hle. now apply Hle.
Qed.

Lemma next_id_fresh (ids : list nat) : ~ In (next_id ids) ids.
Proof. intro H. apply list_max_ge in H. unfold next_id in H. lia. Qed.

(** Inserting a snapshot keeps the primary key. *)
Lemma insert_traceroute_unique_ids (now : datetime) (target : Target.t)
      (output : string) (db : Db) :
  unique_ids db -> unique_ids (insert_traceroute now target output db).
Proof.
  unfold unique_ids, insert_traceroute. simpl. intro H.
  rewrite map_app. simpl.
  eapply Permutation_NoDup.
  - apply Permutation_cons_append.
  - constructor; [apply next_id_fresh | assumption].
Qed.

Lemma sorted_snoc (ids : list nat) (top : nat) :
  StronglySorted lt ids -> (forall i, In i ids -> i < top) ->
  StronglySorted lt (ids ++ [top]).
Proof.
  induction ids as [|i ids IH]; intros Hs Hmax; simpl.
  - repeat constructor.
  - inversion Hs as [|? ? Hrest Hall]; subst. constructor.
    + apply IH; [assumption|]. intros j Hj. apply Hmax. now right.
    + apply Forall_app. split; [assumption|].
      constructor; [|constructor]. apply Hmax. now left.
Qed.

(** The new row gets the largest id: the ids stay in increasing order,
    as they are in the empty table. Increasing ids are unique. *)
Lemma insert_traceroute_ids_increasing (now : datetime) (target : Target.t)
      (output : string) (db : Db) :
  ids_increasing db -> ids_increasing (insert_traceroute now target output db).
Proof.
  unfold ids_increasing, insert_traceroute, new_traceroute. simpl.
  intro Hs. rewrite map_app. simpl.
  apply sorted_snoc; [assumption|].
  intros i Hi. apply list_max_ge in Hi. unfold next_id. lia.
Qed.

Lemma ids_increasing_unique (db : Db) : ids_increasing db -> unique_ids db.
Proof.
  unfold ids_increasing, unique_ids.
  induction (map Traceroute.id (traceroutes db)) as [|i ids IH]; intro Hs.
  - constructor.
  - inversion Hs as [|? ? Hrest Hall]; subst.
    constructor; [|now apply IH].
    intro Hin. rewrite Forall_forall in Hall. specialize (Hall i Hin). lia.
Qed.

Section UpdateFacts.

Variable loads : string -> trparse.Traceroute.
Variable nt : bool.
Variable command_runner : string -> string -> Z * string.

Lemma last_trace_of_None (target : Target.t) (db : Db) :
  last_trace_of target db = None <-> traceroutes_of target db = [].
Proof.
  unfold last_trace_of, first. split; intro H.
  - pose proof (order_by_id_desc_perm (traceroutes_of target db)) as Hp.
    destruct (order_by_id_desc (traceroutes_of target db)) eqn:E;
      [|discriminate].
    now apply Permutation_nil in Hp.
  - now rewrite H.
Qed.

(** The snapshot the update compares against is the stored snapshot of the
    target with the largest id. *)
Lemma last_trace_of_newest (target : Target.t) (db : Db)
      (last_trace : Traceroute.t) :
  last_trace_of target db = Some last_trace ->
  In last_trace (traceroutes_of target db)
  /\ forall row, In row (traceroutes_of target db) ->
                 Traceroute.id row <= Traceroute.id last_trace.
Proof.
  unfold last_trace_of, first. intro H.
  pose proof (order_by_id_desc_perm (traceroutes_of target db)) as Hp.
  pose proof (order_by_id_desc_sorted (traceroutes_of target db)) as Hs.
  destruct (order_by_id_desc (traceroutes_of target db)) as [|r rest];
    [discriminate|].
  simpl in H. inversion H. subst r. split.
  - apply (Permutation_in _ Hp). now left.
  - intros row Hrow.
    apply (Permutation_in _ (Permutation_sym Hp)) in Hrow.
    destruct Hrow as [<-|Hrow]; [lia|].
    inversion Hs as [|? ? _ Hall]; subst.
    rewrite Forall_forall in Hall. now apply Hall.
Qed.

(** Resolving the target leaves the table of snapshots alone. *)
Lemma resolve_target_traceroutes (name address groups : string) (db db1 : Db)
      (target : Target.t) (log : list LogRecord) :
  resolve_target name address groups db = Ok (target, db1, log) ->
  traceroutes db1 = traceroutes db.
Proof.
  unfold resolve_target.
  destruct (one (targets_named name db)) as [t|e].
  - intro H. inversion H. reflexivity.
  - destruct e; try discriminate.
    simpl. intro H. inversion H. reflexivity.
Qed.

Lemma app_singleton_neq {A : Type} (l : list A) (x : A) : l ++ [x] <> l.
Proof.
  intro H. apply (f_equal (@List.length A)) in H.
  rewrite length_app in H. simpl in H. lia.
Qed.

(** A row whose id is below every id of a descending list goes to its
    end. *)
Lemma insert_desc_smallest (row : Traceroute.t) (sorted : list Traceroute.t) :
  Forall (fun r => Traceroute.id row < Traceroute.id r) sorted ->
  insert_desc row sorted = sorted ++ [row].
Proof.
  induction sorted as [|r rest IH]; intro Hall; simpl; [reflexivity|].
  inversion Hall as [|? ? Hr Hrest]; subst.
  destruct (Traceroute.id r <=? Traceroute.id row)%nat eqn:E.
  - apply Nat.leb_le in E. lia.
  - now rewrite IH.
Qed.

(** On rows stored with increasing ids, [ORDER BY id DESC] is the
    reverse of the order of storage. *)
Lemma order_by_id_desc_rev (rows : list Traceroute.t) :
  StronglySorted lt (map Traceroute.id rows) ->
  order_by_id_desc rows = rev rows.
Proof.
  induction rows as [|row rest IH]; intro Hs; simpl; [reflexivity|].
  simpl in Hs. inversion Hs as [|? ? Hrest Hall]; subst.
  rewrite IH by assumption.
  apply insert_desc_smallest.
  apply Forall_forall. intros r Hr.
  rewrite Forall_forall in Hall. apply Hall.
  apply in_map, in_rev. exact Hr.
Qed.

Lemma filter_ids_sorted (keep_row : Traceroute.t -> bool)
      (rows : list Traceroute.t) :
  StronglySorted lt (map Traceroute.id rows) ->
  StronglySorted lt (map Traceroute.id (filter keep_row rows)).
Proof.
  induction rows as [|row rest IH]; intro Hs; simpl; [constructor|].
  simpl in Hs. inversion Hs as [|? ? Hrest Hall]; subst.
  destruct (keep_row row); [|now apply IH].
  simpl. constructor; [now apply IH|].
  apply Forall_forall. intros i Hi.
  rewrite Forall_forall in Hall. apply Hall.
  apply in_map_iff in Hi as [r [<- Hr]].
  apply filter_In in Hr as [Hr _]. now apply in_map.
Qed.

(** With ids handed out in increasing order, the snapshot the query of
    the update returns is the one stored last. *)
Lemma last_trace_of_most_recent (target : Target.t) (db : Db) :
  ids_increasing db -> last_trace_of target db = most_recent target db.
Proof.
  intro Hinc. unfold last_trace_of, most_recent, first.
  rewrite order_by_id_desc_rev; [reflexivity|].
  unfold traceroutes_of. now apply filter_ids_sorted.
Qed.

(** The call for a target the query finds: the rest of the [with] block
    runs on the database as it is, and the call returns. *)
Lemma update_known (now : datetime) (name address groups : string)
      (db : Db) (target : Target.t) :
  one (targets_named name db) = Ok target ->
  update_traceroute_database loads nt command_runner now name address groups db
  = mkOutcome (Ok tt)
              (fst (store_if_changed loads nt command_runner
                                     now name target db))
              (snd (store_if_changed loads nt command_runner
                                     now name target db)).
Proof.
  intro Hone.
  unfold update_traceroute_database, resolve_target, session_bound.
  rewrite Hone. simpl.
  now destruct (store_if_changed loads nt command_runner now name target db).
Qed.

(** C1. For every target of the database and every update of it whose
    probe succeeds, the call returns, and the new snapshot is appended
    to the stored snapshots if and only if the target has no prior
    snapshot or the hop diff of its most recent stored snapshot against
    the new raw text is non-empty; when that diff is empty the database
    is unchanged. The most recent snapshot of the target is the one
    that was stored last, in a table whose row ids grow with every
    insertion. *)
Theorem update_change_gated (now : datetime) (name address groups : string)
        (db : Db) (target : Target.t) (current_trace : string) :
  ids_increasing db ->
  one (targets_named name db) = Ok target ->
  truthy (fst (get_traceroute nt command_runner (Target.address target)))
  = Some current_trace ->
  returned (update_traceroute_database loads nt command_runner
                                       now name address groups db) = Ok tt
  /\
  (traceroutes
     (db_of (update_traceroute_database loads nt command_runner
                                        now name address groups db))
   = traceroutes db ++ [new_traceroute now target current_trace db]
   <->
   traceroutes_of target db = []
   \/ exists last_trace,
       most_recent target db = Some last_trace
       /\ diff_traceroutes loads (Traceroute.traceroute last_trace)
                           current_trace <> [])
  /\ (forall last_trace,
         most_recent target db = Some last_trace ->
         diff_traceroutes loads (Traceroute.traceroute last_trace)
                          current_trace = [] ->
         db_of (update_traceroute_database loads nt command_runner
                                           now name address groups db)
         = db).
Proof.
  intros Hinc Hone Hprobe.
  rewrite (@update_known now name address groups db target Hone). simpl.
  split; [reflexivity|].
  rewrite <- (@last_trace_of_most_recent target db Hinc).
  unfold store_if_changed.
  destruct (get_traceroute nt command_runner (Target.address target))
    as [probe probe_log].
  simpl in Hprobe. rewrite Hprobe.
  destruct (last_trace_of target db) as [last|] eqn:Elast.
  - assert (Hne : traceroutes_of target db <> []).
    { intro Hnil. apply last_trace_of_None in Hnil. congruence. }
    destruct (diff_traceroutes loads (Traceroute.traceroute last)
                               current_trace) as [|i rest] eqn:Ediff; simpl.
    + split.
      * split.
        -- intro H. symmetry in H. now apply app_singleton_neq in H.
        -- intros [H|[l [Hl Hd]]]; [contradiction|].
           inversion Hl. subst l. congruence.
      * intros l Hl _. reflexivity.
    + split.
      * split.
        -- intros _. right. exists last. split; [reflexivity|].
           rewrite Ediff. discriminate.
        -- reflexivity.
      * intros l Hl Hd. inversion Hl. subst l. congruence.
  - simpl. split.
    + split; [|reflexivity].
      intros _. left. now apply last_trace_of_None.
    + intros l Hl. discriminate.
Qed.

End UpdateFacts.

(* ================================================================== *)
(** * Properties of the retention policy *)

Lemma unique_row (rows : list Traceroute.t) (a b : Traceroute.t) :
  NoDup (map Traceroute.id rows) ->
  In a rows -> In b rows -> Traceroute.id a = Traceroute.id b -> a = b.
Proof.
  induction rows as [|r rest IH]; simpl; intros Hnd Ha Hb Hid;
    [contradiction|].
  inversion Hnd as [|? ? Hnotin Hrest]; subst.
  destruct Ha as [->|Ha], Hb as [->|Hb].
  - reflexivity.
  - exfalso. apply Hnotin. rewrite Hid. now apply in_map.
  - exfalso. apply Hnotin. rewrite <- Hid. now apply in_map.
  - now apply IH.
Qed.

(** A selection of rows of a table with a primary key has a primary key
    too. *)
Lemma selection_unique_ids (keep_row : Traceroute.t -> bool)
      (rows : list Traceroute.t) :
  NoDup (map Traceroute.id rows) ->
  NoDup (map Traceroute.id (filter keep_row rows)).
Proof.
  intro Hnd. induction rows as [|row rest IH]; simpl; [constructor|].
  simpl in Hnd. apply NoDup_cons_iff in Hnd as [Hfresh Hrest].
  destruct (keep_row row); simpl; [|exact (IH Hrest)].
  apply NoDup_cons_iff. split; [|exact (IH Hrest)].
  intro Hin. apply Hfresh.
  apply in_map_iff in Hin as [other [Hid Hother]].
  apply filter_In in Hother as [Hother _].
  rewrite <- Hid. now apply in_map.
Qed.

Lemma id_in_spec (ids : list nat) (row : Traceroute.t) :
  id_in ids row = true <-> In (Traceroute.id row) ids.
Proof.
  unfold id_in. rewrite existsb_exists. split.
  - intros [i [Hi He]]. apply Nat.eqb_eq in He. now rewrite He.
  - intro H. exists (Traceroute.id row). split; [assumption|].
    apply Nat.eqb_refl.
Qed.

(** With a primary key, a set of ids selects at most as many rows as it
    has ids. *)
Lemma selected_rows_bound (ids : list nat) (rows : list Traceroute.t) :
  NoDup (map Traceroute.id rows) ->
  List.length (filter (id_in ids) rows) <= List.length ids.
Proof.
  intro Hnd.
  rewrite <- (length_map Traceroute.id (filter (id_in ids) rows)).
  apply NoDup_incl_length.
  - now apply selection_unique_ids.
  - intros i Hi. apply in_map_iff in Hi as [row [<- Hrow]].
    apply filter_In in Hrow as [_ Hrow]. now apply id_in_spec.
Qed.

Lemma subquery_length (target : Target.t) (before : datetime) (n : Z)
      (db : Db) :
  List.length (subquery target before n db) <= Z.to_nat n.
Proof. unfold subquery, limit. apply firstn_le_length. Qed.

(** Every row the subquery selects is a row of the target created before
    the threshold. *)
Lemma subquery_selects (target : Target.t) (before : datetime) (n : Z)
      (db : Db) (row : Traceroute.t) :
  unique_ids db ->
  In row (traceroutes db) ->
  id_in (subquery target before n db) row = true ->
  of_target target row = true
  /\ (Traceroute.creation_date row < before)%Z.
Proof.
  intros Hu Hrow Hin. apply id_in_spec in Hin.
  unfold subquery, limit in Hin. apply firstn_incl in Hin.
  apply in_map_iff in Hin as [r [Hid Hr]].
  apply (Permutation_in _ (order_by_id_desc_perm _)) in Hr.
  apply filter_In in Hr as [Hr Hp].
  assert (r = row) by (apply (@unique_row _ _ _ Hu Hr Hrow Hid)). subst r.
  apply andb_true_iff in Hp as [H1 H2].
  split; [assumption | now apply Z.ltb_lt].
Qed.

Lemma filter_split {A : Type} (p q : A -> bool) (l : list A) :
  List.length (filter p l)
  = List.length (filter p (filter q l))
    + List.length (filter p (filter (fun x => negb (q x)) l)).
Proof.
  induction l as [|x l IH]; simpl; [reflexivity|].
  destruct (q x); simpl; destruct (p x); simpl; lia.
Qed.

Lemma threshold_value (now : datetime) (days : Z) (before : datetime) :
  (delta <- timedelta days ;; datetime_sub now delta) = Ok before ->
  before = (now - days * microseconds_per_day)%Z.
Proof.
  unfold timedelta, datetime_sub, bind.
  destruct (Z.abs days <=? 999999999)%Z; [|discriminate].
  destruct ((0 <=? now - days * microseconds_per_day)
            && (now - days * microseconds_per_day <? datetime_end))%Z;
    [|discriminate].
  intro H. now inversion H.
Qed.

(** C3. After one call of [delete_old_traceroutes], every target keeps at
    least [min(previous count, keep)] snapshots; the call changes nothing
    when the target has at most [keep] snapshots; and no snapshot created
    at or after [now] minus [days] days is deleted. *)
Theorem delete_old_traceroutes_floor (now : datetime) (name : string)
        (days keep : Z) (db : Db) :
  unique_ids db ->
  (forall target,
      (Z.min (count_of target db) keep
       <= count_of target
            (db_of (delete_old_traceroutes now name days keep db)))%Z)
  /\ (forall target,
         one (targets_named name db) = Ok target ->
         (count_of target db <= keep)%Z ->
         db_of (delete_old_traceroutes now name days keep db) = db)
  /\ (forall row,
         In row (traceroutes db) ->
         (now - days * microseconds_per_day
          <= Traceroute.creation_date row)%Z ->
         In row (traceroutes
                   (db_of (delete_old_traceroutes now name days keep db)))).
Proof.
  intros Hu. unfold delete_old_traceroutes.
  destruct (one (targets_named name db)) as [target|e] eqn:Eone.
  2:{ replace (db_of _) with db by (destruct e; reflexivity).
      repeat split; try lia; auto. }
  fold (count_of target db).
  destruct (keep <? count_of target db)%Z eqn:Ekeep.
  2:{ simpl. repeat split; try lia; auto. }
  apply Z.ltb_lt in Ekeep.
  destruct (delta <- timedelta days;; datetime_sub now delta)
    as [before|e] eqn:Eth.
  2:{ simpl. repeat split; try lia; auto. }
  apply threshold_value in Eth.
  set (ids := subquery target before (count_of target db - keep) db).
  simpl. split; [|split].
  - intro t. unfold count_of, traceroutes_of. simpl.
    pose proof (filter_split (of_target t) (id_in ids) (traceroutes db))
      as Hsplit.
    destruct (Nat.eqb (Target.id t) (Target.id target)) eqn:Eid.
    + apply Nat.eqb_eq in Eid.
      assert (Hsame : List.length (filter (of_target t) (traceroutes db))
                      = List.length (traceroutes_of target db)).
      { unfold traceroutes_of. f_equal. apply filter_ext.
        intro r. unfold of_target. now rewrite Eid. }
      pose proof (filter_length_le (of_target t)
                                   (filter (id_in ids) (traceroutes db))).
      pose proof (@selected_rows_bound ids _ Hu).
      pose proof (subquery_length target before
                                  (count_of target db - keep) db).
      fold ids in H1. unfold count_of in *. lia.
    + apply Nat.eqb_neq in Eid.
      assert (Hnone : filter (of_target t)
                             (filter (id_in ids) (traceroutes db)) = []).
      { destruct (filter (of_target t)
                         (filter (id_in ids) (traceroutes db)))
          as [|r rest] eqn:E; [reflexivity|].
        assert (Hr : In r (filter (of_target t)
                                  (filter (id_in ids) (traceroutes db))))
          by (rewrite E; now left).
        apply filter_In in Hr as [Hr Ht].
        apply filter_In in Hr as [Hr Hi].
        pose proof (@subquery_selects target before _ db r Hu Hr Hi) as [Hi' _].
        unfold of_target in Ht, Hi'.
        apply Nat.eqb_eq in Ht, Hi'. congruence. }
      rewrite Hnone in Hsplit. simpl in Hsplit. lia.
  - intros t Ht Hle. inversion Ht. subst t. lia.
  - intros row Hrow Hnew. apply filter_In. split; [assumption|].
    destruct (id_in ids row) eqn:Ein; [|reflexivity].
    pose proof (@subquery_selects target before _ db row Hu Hrow Ein)
      as [_ Hold]. lia.
Qed.

Lemma sorted_app_order (front back : list Traceroute.t) :
  StronglySorted id_ge (front ++ back) ->
  forall a b, In a front -> In b back -> id_ge a b.
Proof.
  induction front as [|x front IH]; simpl; intros Hs a b Ha Hb;
    [contradiction|].
  inversion Hs as [|? ? Hrest Hall]; subst.
  destruct Ha as [<-|Ha].
  - rewrite Forall_forall in Hall. apply Hall, in_or_app. now right.
  - now apply IH.
Qed.

(** The subquery takes the newest of the old snapshots: a row of the
    target that is older than the threshold and not selected has an id
    no larger than any selected id. *)
Lemma subquery_newest_first (target : Target.t) (before : datetime) (n : Z)
      (db : Db) (row : Traceroute.t) (selected : nat) :
  In row (filter (fun r => of_target target r
                           && (Traceroute.creation_date r <? before)%Z)
                 (traceroutes db)) ->
  ~ In (Traceroute.id row) (subquery target before n db) ->
  In selected (subquery target before n db) ->
  Traceroute.id row <= selected.
Proof.
  unfold subquery, limit.
  set (old := filter _ (traceroutes db)).
  intros Hrow Hout Hsel.
  pose proof (order_by_id_desc_sorted old) as Hs.
  apply (Permutation_in _ (Permutation_sym (order_by_id_desc_perm old)))
    in Hrow.
  rewrite <- (firstn_skipn (Z.to_nat n) (order_by_id_desc old)) in Hs, Hrow.
  rewrite firstn_map in Hsel, Hout.
  apply in_map_iff in Hsel as [x [<- Hx]].
  apply in_app_or in Hrow as [Hrow|Hrow].
  - exfalso. apply Hout. now apply in_map.
  - exact (sorted_app_order _ _ Hs x row Hx Hrow).
Qed.

(** C2. On a target with three snapshots, all older than the threshold,
    and [keep = 2], the call deletes the snapshot with id 3, the newest of
    the three, and keeps the oldest, id 1: the subquery orders the old
    snapshots newest first before it applies the limit. *)
Theorem delete_old_traceroutes_removes_newest :
  map Traceroute.id
      (traceroutes
         (db_of (delete_old_traceroutes Sample.now "router-a" 30 2
                                        Sample.db)))
  = [1; 2]
  /\ map Traceroute.id
         (deleted_rows
            Sample.db
            (db_of (delete_old_traceroutes Sample.now "router-a" 30 2
                                           Sample.db)))
     = [3]
  /\ subquery Sample.router_a (Sample.now - 30 * Sample.day)%Z 1 Sample.db
     = [3].
Proof. vm_compute. repeat split. Qed.

(** The rows a call of [delete_old_traceroutes] removes are, in general,
    the rows whose ids its subquery selected. *)
Lemma delete_old_traceroutes_deletes_subquery (now : datetime)
      (name : string) (days keep : Z) (db : Db) (target : Target.t)
      (before : datetime) :
  one (targets_named name db) = Ok target ->
  (keep < count_of target db)%Z ->
  (delta <- timedelta days ;; datetime_sub now delta) = Ok before ->
  traceroutes (db_of (delete_old_traceroutes now name days keep db))
  = filter (fun row =>
              negb (id_in (subquery target before
                                    (count_of target db - keep) db) row))
           (traceroutes db).
Proof.
  intros Hone Hkeep Hth. unfold delete_old_traceroutes.
  rewrite Hone. fold (count_of target db).
  apply Z.ltb_lt in Hkeep. rewrite Hkeep, Hth. reflexivity.
Qed.

(** The rows a deletion by id removes are the rows it selected. *)
Lemma deleted_rows_selected (ids : list nat) (db : Db) :
  deleted_rows db
    (mkDb (targets db)
          (filter (fun row => negb (id_in ids row)) (traceroutes db)))
  = filter (id_in ids) (traceroutes db).
Proof.
  unfold deleted_rows. cbn [traceroutes].
  apply filter_ext_in. intros row Hrow.
  destruct (id_in ids row) eqn:Esel.
  - apply negb_true_iff.
    destruct (existsb _ _) eqn:Ex; [|reflexivity].
    apply existsb_exists in Ex as [i [Hi Heq]].
    apply Nat.eqb_eq in Heq. subst i.
    apply in_map_iff in Hi as [kept [Hid Hkept]].
    apply filter_In in Hkept as [_ Hkept].
    unfold id_in in Hkept, Esel. rewrite Hid in Hkept.
    rewrite Esel in Hkept. discriminate.
  - apply negb_false_iff. apply existsb_exists.
    exists (Traceroute.id row). split; [|apply Nat.eqb_refl].
    apply in_map, filter_In. split; [exact Hrow|].
    now rewrite Esel.
Qed.

(** C7, as the code has it. [delete_old_traceroutes] never returns a
    number: when it returns, its value is [None]. Either it leaves the
    database as it was and logs nothing, or it logs one INFO record that
    carries the number of snapshots it removed. A call that raises
    leaves the database as it was. *)
Theorem delete_old_traceroutes_returns_none (now : datetime) (name : string)
        (days keep : Z) (db : Db) :
  (returned (delete_old_traceroutes now name days keep db) = Ok None
   /\ ((db_of (delete_old_traceroutes now name days keep db) = db
        /\ logged (delete_old_traceroutes now name days keep db) = [])
       \/ logged (delete_old_traceroutes now name days keep db)
          = [(INFO,
              ("Deleted "
                 ++ str_of_nat
                      (List.length
                         (deleted_rows
                            db
                            (db_of (delete_old_traceroutes
                                      now name days keep db))))
                 ++ " old records for target: " ++ name ++ ".")%string)]))
  \/ exists e,
      returned (delete_old_traceroutes now name days keep db) = Raise e
      /\ db_of (delete_old_traceroutes now name days keep db) = db
      /\ logged (delete_old_traceroutes now name days keep db) = [].
Proof.
  unfold delete_old_traceroutes.
  destruct (one (targets_named name db)) as [target|e].
  2:{ destruct e; simpl; eauto 6. }
  destruct (keep <? _)%Z; [|simpl; auto].
  destruct (delta <- timedelta days;; datetime_sub now delta)
    as [before|e]; [|simpl; eauto 6].
  cbn [returned db_of logged]. left. split; [reflexivity|]. right.
  now rewrite deleted_rows_selected.
Qed.

(** C7, as the claim states it, fails: on the sample database the call
    deletes one snapshot and does not return the number 1. *)
Lemma delete_old_traceroutes_count_not_returned :
  List.length
    (deleted_rows
       Sample.db
       (db_of (delete_old_traceroutes Sample.now "router-a" 30 2 Sample.db)))
  = 1
  /\ returned (delete_old_traceroutes Sample.now "router-a" 30 2 Sample.db)
     <> Ok (Some 1%Z).
Proof. vm_compute. split; [reflexivity | discriminate]. Qed.

(* ================================================================== *)
(** * Properties of the configuration readers *)

(** A missing interval gives the default, without a log record. *)
Lemma execute_interval_missing (config : Config) :
  config_get config "TRACEROUTE_HISTORY" "interval" = Raise KeyError ->
  execute_interval config = (Ok 3600%Z, []).
Proof. unfold execute_interval. intros ->. reflexivity. Qed.

(** An interval that [int] rejects leaves the block as [ValueError]:
    neither handler catches it. *)
Lemma execute_interval_bad_value (config : Config) (value : string) :
  config_get config "TRACEROUTE_HISTORY" "interval" = Ok value ->
  py_int value = Raise ValueError ->
  execute_interval config = (Raise ValueError, []).
Proof.
  unfold execute_interval. intros -> H. simpl. rewrite H. reflexivity.
Qed.

(** C8. With the interval [abc] the block that reads the interval raises
    [ValueError] and logs nothing, and so does the set-up of [execute]
    after it has read the hosts; no default is used. *)
Theorem execute_interval_invalid :
  execute_interval Sample.config = (Raise ValueError, [])
  /\ fst (execute_setup Sample.file_lines Sample.config) = Raise ValueError.
Proof. vm_compute. split; reflexivity. Qed.

Section ReadConfigFacts.

Variable file_lines : string -> option (list string).

Lemma fold_smokeping_body (lines : list string) (hosts : list re.Match)
      (names : list (option re.Match)) :
  let '(hosts', names') := fold_left smokeping_body lines (hosts, names) in
  List.length hosts'
  = List.length hosts + List.length (filter is_host_directive lines)
  /\ List.length names'
     = List.length names + List.length (filter is_title_directive lines).
Proof.
  revert hosts names.
  induction lines as [|line rest IH]; intros hosts names; simpl.
  - lia.
  - unfold is_host_directive, is_title_directive.
    specialize (IH
      (match re_match host_regex line with
       | Some h => hosts ++ [h]
       | None => hosts
       end)
      (match re_match title_regex line with
       | Some _ => names ++ [re_match host_regex line]
       | None => names
       end)).
    destruct (fold_left smokeping_body rest _) as [hosts' names'].
    destruct IH as [IH1 IH2]. rewrite IH1, IH2.
    unfold re_match.
    destruct (host_regex line), (title_regex line); simpl;
      rewrite ?length_app; simpl;
      fold is_host_directive; fold is_title_directive; lia.
Qed.

(** C9. A smokeping configuration whose number of host directives differs
    from its number of title directives is rejected as a whole: the reader
    logs an error and returns no list, and the hosts of [execute] are the
    configuration's own [HOST_] sections, without any host of the file
    (and [execute] exits with code 20 when there is no such section). *)
Theorem read_smokeping_config_rejects_mismatch (path : string)
        (lines : list string) :
  path <> EmptyString ->
  file_lines path = Some lines ->
  List.length (filter is_host_directive lines)
  <> List.length (filter is_title_directive lines) ->
  read_smokeping_config file_lines (Some path)
  = (Ok None,
     [(ERROR, "Cannot parse smokeping config file. We need as much titles as host entries.")])
  /\ forall config,
      config_get config "SMOKEPING_SOURCE" "smokeping_config_path" = Ok path ->
      fst (execute_hosts file_lines config)
      = match config_hosts config with
        | [] => Raise (SystemExit 20)
        | own_host :: more => Ok (own_host :: more)
        end.
Proof.
  intros Hpath Hfile Hcount.
  assert (Hread : read_smokeping_config file_lines (Some path)
                  = (Ok None,
                     [(ERROR, "Cannot parse smokeping config file. We need as much titles as host entries.")])).
  { unfold read_smokeping_config.
    destruct path as [|c path']; [congruence|].
    rewrite Hfile.
    pose proof (fold_smokeping_body lines [] []) as Hfold.
    destruct (fold_left smokeping_body lines ([], [])) as [hosts names].
    simpl in Hfold. destruct Hfold as [H1 H2].
    destruct (List.length hosts =? List.length names)%nat eqn:E.
    - apply Nat.eqb_eq in E. lia.
    - reflexivity. }
  split; [exact Hread|].
  intros config Hget. unfold execute_hosts.
  rewrite Hget, Hread.
  destruct (config_hosts config) as [|h hs]; reflexivity.
Qed.

End ReadConfigFacts.

(* ================================================================== *)
(** * The theorems on the sample data *)

(** C4, as the claim states it, fails: the second hop of the first
    sample trace was parsed without a probe, and the trace compared with
    itself reports it. *)
Lemma diff_traceroutes_refl_fails :
  diff_traceroutes Sample.loads Sample.trace_a Sample.trace_a = [1]
  /\ diff_traceroutes Sample.loads Sample.trace_a Sample.trace_a <> [].
Proof. split; [reflexivity | discriminate]. Qed.

(** C5, as the claim states it, fails: both sample traces have a hop at
    index 1 and the first-probe addresses there do not differ, as
    neither hop has a probe, yet index 1 is in the result. *)
Lemma diff_traceroutes_marks_fails :
  1 < Nat.max (List.length (trparse.hops (Sample.loads Sample.trace_a)))
              (List.length (trparse.hops (Sample.loads Sample.trace_b)))
  /\ In 1 (diff_traceroutes Sample.loads Sample.trace_a Sample.trace_b)
  /\ nth_error (trparse.hops (Sample.loads Sample.trace_a)) 1 <> None
  /\ nth_error (trparse.hops (Sample.loads Sample.trace_b)) 1 <> None
  /\ first_address (Sample.loads Sample.trace_a) 1
     = first_address (Sample.loads Sample.trace_b) 1.
Proof.
  split; [simpl; lia|]. split; [simpl; tauto|].
  split; [discriminate|]. split; [discriminate | reflexivity].
Qed.

Lemma sample_ids_increasing : ids_increasing Sample.db.
Proof. unfold ids_increasing. simpl. repeat constructor. Defined.

(** An update of the sample target whose probe returns the second sample
    trace appends it as snapshot 4: it differs from snapshot 3, the most
    recent one. *)
Lemma update_change_gated_sample :
  traceroutes
    (db_of (update_traceroute_database
              Sample.loads false Sample.command_runner
              Sample.now "router-a" "192.0.2.1" "" Sample.db))
  = traceroutes Sample.db
    ++ [Traceroute.mk 4 Sample.trace_b Sample.now 1].
Proof.
  apply (proj1 (proj2 (@update_change_gated
                         Sample.loads false Sample.command_runner
                         Sample.now "router-a" "192.0.2.1" ""
                         Sample.db Sample.router_a Sample.trace_b
                         sample_ids_increasing eq_refl eq_refl))).
  right.
  exists (Traceroute.mk 3 Sample.trace_a (Sample.now - 45 * Sample.day)%Z 1).
  split; [reflexivity|].
  vm_compute. discriminate.
Defined.

(** Pruning the sample target with [keep = 2] leaves it two snapshots. *)
Lemma delete_old_traceroutes_floor_sample :
  unique_ids Sample.db
  /\ (2 <= count_of Sample.router_a
             (db_of (delete_old_traceroutes Sample.now "router-a" 30 2
                                            Sample.db)))%Z.
Proof.
  assert (Hu : unique_ids Sample.db).
  { unfold unique_ids. simpl.
    repeat constructor; simpl; intuition discriminate. }
  split; [exact Hu|].
  exact (proj1 (@delete_old_traceroutes_floor Sample.now "router-a" 30 2
                                              Sample.db Hu)
               Sample.router_a).
Defined.

(** The sample smokeping file, with three host lines and two title lines,
    is rejected. *)
Lemma read_smokeping_config_rejects_sample :
  read_smokeping_config Sample.file_lines (Some "/etc/smokeping/config")
  = (Ok None,
     [(ERROR, "Cannot parse smokeping config file. We need as much titles as host entries.")]).
Proof.
  apply (@read_smokeping_config_rejects_mismatch
           Sample.file_lines "/etc/smokeping/config" Sample.smokeping_lines).
  - discriminate.
  - reflexivity.
  - vm_compute. discriminate.
Defined.

(* ================================================================== *)
(** * Further properties of the hop comparison *)

Lemma filter_all {A : Type} (f : A -> bool) (l : list A) :
  (forall x, In x l -> f x = true) -> filter f l = l.
Proof.
  induction l as [|x l IH]; simpl; intro H; [reflexivity|].
  rewrite (H x (or_introl eq_refl)). f_equal. apply IH.
  intros y Hy. apply H. now right.
Qed.

Lemma filter_none {A : Type} (f : A -> bool) (l : list A) :
  (forall x, In x l -> f x = false) -> filter f l = [].
Proof.
  induction l as [|x l IH]; simpl; intro H; [reflexivity|].
  rewrite (H x (or_introl eq_refl)). apply IH.
  intros y Hy. apply H. now right.
Qed.

(** The indices below [n] that satisfy a test only [i] passes. *)
Lemma filter_seq_single (f : nat -> bool) (n i : nat) :
  i < n -> f i = true ->
  (forall j, j < n -> j <> i -> f j = false) ->
  filter f (seq 0 n) = [i].
Proof.
  intros Hi Hfi Hother.
  replace n with (i + S (n - S i)) by lia.
  rewrite seq_app, filter_app. simpl. rewrite Hfi.
  rewrite (filter_none f (seq 0 i)), (filter_none f (seq (S i) (n - S i))).
  - reflexivity.
  - intros j Hj. apply in_seq in Hj. apply Hother; lia.
  - intros j Hj. apply in_seq in Hj. apply Hother; lia.
Qed.

(** Whether an iteration appends depends on the two traces only through
    the first-probe addresses at the index. *)
Lemma marks_first_address (tr1 tr2 tr1' tr2' : trparse.Traceroute) (i : nat) :
  first_address tr1 i = first_address tr1' i ->
  first_address tr2 i = first_address tr2' i ->
  marks tr1 tr2 i = marks tr1' tr2' i.
Proof.
  intros H1 H2.
  destruct (marks tr1 tr2 i) eqn:E, (marks tr1' tr2' i) eqn:E';
    try reflexivity.
  - apply marks_false in E' as [a [Ha Hb]]. rewrite <- H1 in Ha.
    rewrite <- H2 in Hb.
    assert (marks tr1 tr2 i = false) by (apply marks_false; eauto).
    congruence.
  - apply marks_false in E as [a [Ha Hb]]. rewrite H1 in Ha.
    rewrite H2 in Hb.
    assert (marks tr1' tr2' i = false) by (apply marks_false; eauto).
    congruence.
Qed.

Lemma marks_sym (tr1 tr2 : trparse.Traceroute) (i : nat) :
  marks tr1 tr2 i = marks tr2 tr1 i.
Proof.
  destruct (marks tr1 tr2 i) eqn:E, (marks tr2 tr1 i) eqn:E';
    try reflexivity.
  - apply marks_false in E' as [a [Ha Hb]].
    assert (marks tr1 tr2 i = false) by (apply marks_false; eauto).
    congruence.
  - apply marks_false in E as [a [Ha Hb]].
    assert (marks tr2 tr1 i = false) by (apply marks_false; eauto).
    congruence.
Qed.

Section MoreDiffFacts.

Variable loads : string -> trparse.Traceroute.

(** X1. The comparison is symmetric: swapping the two raw texts gives the
    same list of differing hops. *)
Theorem diff_traceroutes_sym (A B : string) :
  diff_traceroutes loads A B = diff_traceroutes loads B A.
Proof.
  rewrite !diff_traceroutes_filter. unfold max_hops.
  rewrite Nat.max_comm. apply filter_ext. intro i. apply marks_sym.
Qed.

(** X2. Against a trace without hops, every hop position of the other
    trace differs, whichever side the empty trace is on. *)
Theorem diff_traceroutes_empty_side (A B : string) :
  trparse.hops (loads A) = [] ->
  diff_traceroutes loads A B
  = seq 0 (List.length (trparse.hops (loads B)))
  /\ diff_traceroutes loads B A
     = seq 0 (List.length (trparse.hops (loads B))).
Proof.
  intro Hempty.
  assert (Hall : forall tr i, marks (loads A) tr i = true).
  { intros tr i. apply marks_true. unfold first_address.
    rewrite Hempty. destruct i; intros [a [H _]]; discriminate. }
  split; rewrite diff_traceroutes_filter; unfold max_hops;
    rewrite Hempty; simpl; rewrite ?Nat.max_0_r; apply filter_all;
    intros i _; [|rewrite marks_sym]; apply Hall.
Qed.

(** X3. When two traces of the same length, whose hops all carry a probe,
    have the same first-probe address at every hop but one, the result is
    exactly the index of that hop. *)
Theorem diff_traceroutes_one_hop (A B : string) (i : nat) :
  hops_have_probes (loads A) ->
  hops_have_probes (loads B) ->
  List.length (trparse.hops (loads A))
  = List.length (trparse.hops (loads B)) ->
  i < List.length (trparse.hops (loads A)) ->
  first_address (loads A) i <> first_address (loads B) i ->
  (forall j, j <> i -> first_address (loads A) j = first_address (loads B) j) ->
  diff_traceroutes loads A B = [i].
Proof.
  intros HA HB Hlen Hi Hdiff Hsame.
  rewrite diff_traceroutes_filter. unfold max_hops.
  rewrite <- Hlen, Nat.max_id.
  apply filter_seq_single; [assumption| |].
  - apply marks_true. intros [a [Ha Hb]]. congruence.
  - intros j Hj Hne. apply marks_false.
    destruct (first_address_probes HA Hj) as [a Ha].
    exists a. split; [assumption|]. rewrite <- Hsame; assumption.
Qed.

(** X4. Unresolved hops compare by position like any address: two hops
    whose first probes both have no address do not differ, and a hop
    whose first probe has no address differs from one whose first probe
    has one. *)
Theorem diff_traceroutes_unresolved (A B : string) (i : nat) :
  first_address (loads A) i = Some None ->
  (first_address (loads B) i = Some None ->
   ~ In i (diff_traceroutes loads A B))
  /\ (forall address,
         first_address (loads B) i = Some (Some address) ->
         In i (diff_traceroutes loads A B)).
Proof.
  intro HA. split.
  - intros HB Hin. apply In_diff_traceroutes in Hin as [_ Hm].
    apply marks_true in Hm. apply Hm. now exists None.
  - intros address HB. apply In_diff_traceroutes. split.
    + unfold max_hops.
      assert (i < List.length (trparse.hops (loads A))).
      { apply nth_error_Some. unfold first_address in HA.
        destruct (nth_error (trparse.hops (loads A)) i); congruence. }
      lia.
    + apply marks_true. intros [a [Ha Hb]]. congruence.
Qed.

(** X5. Only the first probe of a hop counts: two texts whose traces have
    as many hops and the same first-probe address at every hop give the
    same result against any third text. *)
Theorem diff_traceroutes_first_probe_only (A A' B : string) :
  List.length (trparse.hops (loads A))
  = List.length (trparse.hops (loads A')) ->
  (forall i, first_address (loads A) i = first_address (loads A') i) ->
  diff_traceroutes loads A B = diff_traceroutes loads A' B.
Proof.
  intros Hlen Hsame. rewrite !diff_traceroutes_filter. unfold max_hops.
  rewrite Hlen. apply filter_ext. intro i.
  apply marks_first_address; [apply Hsame | reflexivity].
Qed.

End MoreDiffFacts.

(* ================================================================== *)
(** * Further properties of the renderer *)

Lemma concat_cons_empty (piece : string) (pieces : list string) :
  String.concat "" (piece :: pieces)
  = (piece ++ String.concat "" pieces)%string.
Proof.
  destruct pieces as [|p ps]; simpl; [now rewrite string_app_nil_r|].
  reflexivity.
Qed.

Lemma split_on_not_nil (sep : ascii) (s : string) : split_on sep s <> [].
Proof.
  destruct s as [|c s]; simpl; [discriminate|].
  destruct (Ascii.eqb c sep); [discriminate|].
  destruct (split_on sep s); discriminate.
Qed.

(** Ending every line of a text with a line feed and joining the lines
    gives the text back, with one more line feed. *)
Lemma lines_joined (tr : string) :
  String.concat "" (map (fun line => (line ++ nl)%string)
                        (split_on nl_char tr))
  = (tr ++ nl)%string.
Proof.
  induction tr as [|c tr IH]; [reflexivity|].
  simpl split_on. destruct (Ascii.eqb c nl_char) eqn:E.
  - apply Ascii.eqb_eq in E. subst c.
    rewrite map_cons, concat_cons_empty, IH. reflexivity.
  - destruct (split_on nl_char tr) as [|field rest] eqn:Es.
    + now apply split_on_not_nil in Es.
    + rewrite map_cons, concat_cons_empty.
      rewrite map_cons, concat_cons_empty in IH.
      simpl. simpl in IH. now rewrite IH.
Qed.

Lemma console_output_plain (end_color tr color : string) :
  _console_output [] end_color tr color = (tr ++ nl)%string.
Proof.
  unfold _console_output. rewrite fold_console_body. simpl.
  rewrite <- lines_joined. f_equal. apply map_ext. intro line.
  unfold emitted. destruct (hop_index line); reflexivity.
Qed.

Lemma probeless_never (tr : trparse.Traceroute) (i : nat) :
  hops_have_probes tr -> probeless tr i = false.
Proof.
  intro H. unfold probeless.
  destruct (nth_error (trparse.hops tr) i) as [hop|] eqn:E; [|reflexivity].
  apply nth_error_In in E. unfold hops_have_probes in H.
  rewrite Forall_forall in H. specialize (H hop E).
  destruct (trparse.probes hop); [congruence | reflexivity].
Qed.

(** X7. Two snapshots with the same raw text, whose hops all carry a
    probe, are rendered without any highlight marker in either
    formatting: each body is the raw text under its header. *)
Theorem identical_snapshots_render_plain
        (loads : string -> trparse.Traceroute)
        (str_of_datetime : datetime -> string)
        (colorama : option (string * string))
        (tr1 tr2 : Traceroute.t) (formatting : string) :
  Traceroute.traceroute tr1 = Traceroute.traceroute tr2 ->
  hops_have_probes (loads (Traceroute.traceroute tr1)) ->
  traceroutes_difference_formatted loads str_of_datetime colorama
                                   tr1 tr2 formatting
  = ("Traceroute recorded at "
       ++ str_of_datetime (Traceroute.creation_date tr1) ++ ":" ++ nl
       ++ (Traceroute.traceroute tr1 ++ nl)
       ++ "Traceroute recorded at "
       ++ str_of_datetime (Traceroute.creation_date tr2) ++ ":" ++ nl
       ++ (Traceroute.traceroute tr2 ++ nl))%string.
Proof.
  intros Hsame Hprobes. unfold traceroutes_difference_formatted.
  rewrite <- Hsame, diff_traceroutes_self.
  rewrite filter_none by (intros i _; now apply probeless_never).
  destruct (String.eqb formatting "web"); [|destruct colorama as [[g r]|]];
    now rewrite !console_output_plain.
Qed.

(* ================================================================== *)
(** * Further properties of the update policy *)

Lemma one_Ok {A : Type} (rows : list A) (row : A) :
  one rows = Ok row <-> rows = [row].
Proof.
  destruct rows as [|r [|r' rest]]; simpl; split; intro H;
    try discriminate; inversion H; reflexivity.
Qed.

Lemma one_NoResultFound {A : Type} (rows : list A) :
  one rows = Raise NoResultFound <-> rows = [].
Proof.
  destruct rows as [|r [|r' rest]]; simpl; split; intro H;
    try discriminate; reflexivity.
Qed.

Lemma targets_named_In (name : string) (db : Db) (target : Target.t) :
  In target (targets_named name db) <->
  In target (targets db) /\ Target.name target = name.
Proof.
  unfold targets_named. rewrite filter_In, String.eqb_eq. reflexivity.
Qed.

Section MoreUpdateFacts.

Variable loads : string -> trparse.Traceroute.
Variable nt : bool.
Variable command_runner : string -> string -> Z * string.

(** The two ways a target is resolved: found as the only row with the
    name, or created when no row has it. *)
Lemma resolve_target_cases (name address groups : string) (db db1 : Db)
      (target : Target.t) (log : list LogRecord) :
  resolve_target name address groups db = Ok (target, db1, log) ->
  (targets_named name db = [target] /\ db1 = db)
  \/ (targets_named name db = []
      /\ target = Target.mk (next_id (map Target.id (targets db)))
                            name address
      /\ db1 = mkDb (targets db ++ [target]) (traceroutes db)).
Proof.
  unfold resolve_target.
  destruct (one (targets_named name db)) as [t|e] eqn:E.
  - intro H. inversion H. subst. left. split; [|reflexivity].
    now apply one_Ok.
  - destruct e; try discriminate.
    apply one_NoResultFound in E. simpl. intro H. inversion H. subst.
    right. auto.
Qed.

(** Resolving a name again, once it has been resolved, finds the same
    target and changes nothing. *)
Lemma resolve_target_again (name address groups : string) (db db1 db2 : Db)
      (target : Target.t) (log : list LogRecord) :
  resolve_target name address groups db = Ok (target, db1, log) ->
  targets db2 = targets db1 ->
  resolve_target name address groups db2 = Ok (target, db2, []).
Proof.
  intros H Ht. apply resolve_target_cases in H.
  assert (Hnamed : targets_named name db2 = [target]).
  { unfold targets_named. rewrite Ht.
    destruct H as [[H ->]|[H [Htarget ->]]]; [exact H|].
    simpl. rewrite filter_app. unfold targets_named in H. rewrite H.
    simpl. subst target. simpl. now rewrite String.eqb_refl. }
  unfold resolve_target. now rewrite Hnamed.
Qed.

(** What the rest of the [with] block leaves: the database it was given,
    or that database with the new snapshot. *)
Lemma store_if_changed_cases (now : datetime) (name : string)
      (target : Target.t) (db : Db) :
  fst (store_if_changed loads nt command_runner now name target db) = db
  \/ exists current_trace,
      truthy (fst (get_traceroute nt command_runner (Target.address target)))
      = Some current_trace
      /\ fst (store_if_changed loads nt command_runner now name target db)
         = insert_traceroute now target current_trace db.
Proof.
  unfold store_if_changed.
  destruct (get_traceroute nt command_runner (Target.address target))
    as [probe probe_log]. simpl.
  destruct (truthy probe) as [current_trace|]; [|now left].
  destruct (last_trace_of target db) as [last|].
  - destruct (diff_traceroutes loads (Traceroute.traceroute last)
                               current_trace); [now left|].
    right. now exists current_trace.
  - right. now exists current_trace.
Qed.

(** The database a call leaves once the target is resolved: what the
    rest of the [with] block made of it for a target the query found,
    and the database with the new target for one that was created. *)
Lemma update_db_of (now : datetime) (name address groups : string)
      (db db1 : Db) (target : Target.t) (log : list LogRecord) :
  resolve_target name address groups db = Ok (target, db1, log) ->
  (one (targets_named name db) = Ok target
   /\ db1 = db
   /\ db_of (update_traceroute_database loads nt command_runner
                                        now name address groups db)
      = fst (store_if_changed loads nt command_runner now name target db))
  \/ (targets_named name db = []
      /\ db_of (update_traceroute_database loads nt command_runner
                                           now name address groups db)
         = db1).
Proof.
  intro H. unfold update_traceroute_database, session_bound. rewrite H.
  unfold resolve_target in H.
  destruct (one (targets_named name db)) as [found|e] eqn:E.
  - inversion H. subst. left. simpl.
    destruct (store_if_changed _ _ _ _ _ _ _). auto.
  - destruct e; try discriminate.
    apply one_NoResultFound in E. right. auto.
Qed.

Lemma update_db_of_raise (now : datetime) (name address groups : string)
      (db : Db) (e : exn) :
  resolve_target name address groups db = Raise e ->
  db_of (update_traceroute_database loads nt command_runner
                                    now name address groups db) = db.
Proof. intro H. unfold update_traceroute_database. now rewrite H. Qed.

(** A target that has just been created owns no snapshot. *)
Lemma new_target_has_no_snapshot (name address groups : string) (db : Db) :
  foreign_keys db ->
  traceroutes_of (fst (create_target name address groups db))
                 (snd (create_target name address groups db))
  = [].
Proof.
  unfold foreign_keys, traceroutes_of, create_target. simpl.
  rewrite Forall_forall. intro Hfk.
  apply filter_none. intros row Hrow.
  unfold of_target. simpl. apply Nat.eqb_neq. intro Heq.
  apply (@next_id_fresh (map Target.id (targets db))).
  rewrite <- Heq. now apply Hfk.
Qed.

(** X8. The first update for a name that no target has never gets to the
    probe. The target is created and stays in the database, the INFO
    record of the creation is the only one logged, and the call then
    raises [DetachedInstanceError] where it reads the address of the new
    target: no snapshot is stored. It is the second update for the name
    that finds the target, probes it and, when the probe succeeds,
    stores the first snapshot. *)
Theorem update_unknown_target (now now' : datetime)
        (name address groups : string) (db : Db) :
  targets_named name db = [] ->
  returned (update_traceroute_database loads nt command_runner
                                       now name address groups db)
  = Raise DetachedInstanceError
  /\ logged (update_traceroute_database loads nt command_runner
                                        now name address groups db)
     = [(INFO, ("Created new target: " ++ name ++ ".")%string)]
  /\ db_of (update_traceroute_database loads nt command_runner
                                       now name address groups db)
     = mkDb (targets db
             ++ [Target.mk (next_id (map Target.id (targets db)))
                           name address])
            (traceroutes db)
  /\ (foreign_keys db ->
      forall current_trace,
        truthy (fst (get_traceroute nt command_runner address))
        = Some current_trace ->
        returned (update_traceroute_database
                    loads nt command_runner now' name address groups
                    (db_of (update_traceroute_database
                              loads nt command_runner
                              now name address groups db)))
        = Ok tt
        /\ traceroutes
             (db_of (update_traceroute_database
                       loads nt command_runner now' name address groups
                       (db_of (update_traceroute_database
                                 loads nt command_runner
                                 now name address groups db))))
           = traceroutes db
             ++ [Traceroute.mk (next_id (map Traceroute.id (traceroutes db)))
                               current_trace now'
                               (next_id (map Target.id (targets db)))]).
Proof.
  intro Hnone.
  assert (Hfirst : update_traceroute_database loads nt command_runner
                                              now name address groups db
                   = mkOutcome
                       (Raise DetachedInstanceError)
                       (snd (create_target name address groups db))
                       [(INFO, ("Created new target: " ++ name ++ ".")%string)]).
  { unfold update_traceroute_database, resolve_target, session_bound.
    now rewrite Hnone. }
  rewrite Hfirst. cbn [returned logged db_of].
  split; [reflexivity|]. split; [reflexivity|]. split; [reflexivity|].
  intros Hfk current_trace Hprobe.
  assert (Hone : one (targets_named
                        name (snd (create_target name address groups db)))
                 = Ok (fst (create_target name address groups db))).
  { unfold targets_named in *. cbn [create_target snd fst targets].
    rewrite filter_app, Hnone. cbn [filter Target.name app].
    now rewrite String.eqb_refl. }
  rewrite (@update_known loads nt command_runner now' name address groups
                         _ _ Hone).
  cbn [returned db_of]. split; [reflexivity|].
  unfold store_if_changed.
  replace (Target.address (fst (create_target name address groups db)))
    with address by reflexivity.
  destruct (get_traceroute nt command_runner address) as [probe probe_log].
  simpl in Hprobe. rewrite Hprobe.
  assert (Hlast : last_trace_of
                    (fst (create_target name address groups db))
                    (snd (create_target name address groups db))
                  = None).
  { unfold last_trace_of.
    now rewrite new_target_has_no_snapshot. }
  rewrite Hlast. reflexivity.
Qed.

(** X9. An update never removes or rewrites what is stored: both tables
    keep their rows, in order, and each grows by at most one row. *)
Theorem update_only_appends (now : datetime) (name address groups : string)
        (db : Db) :
  exists new_targets new_traceroutes,
    targets (db_of (update_traceroute_database loads nt command_runner
                                               now name address groups db))
    = targets db ++ new_targets
    /\ traceroutes
         (db_of (update_traceroute_database loads nt command_runner
                                            now name address groups db))
       = traceroutes db ++ new_traceroutes
    /\ List.length new_targets <= 1
    /\ List.length new_traceroutes <= 1.
Proof.
  destruct (resolve_target name address groups db) as [[[target db1] log]|e]
    eqn:Hres.
  - assert (Ht : exists new_targets,
               targets db1 = targets db ++ new_targets
               /\ List.length new_targets <= 1).
    { apply resolve_target_cases in Hres as [[_ ->]|[_ [_ ->]]].
      - exists []. rewrite app_nil_r. auto.
      - exists [target]. auto. }
    destruct Ht as [new_targets [Ht Hlen]].
    pose proof (resolve_target_traceroutes _ _ _ _ Hres) as Htab.
    destruct (@update_db_of now name address groups db db1 target log Hres) as [[_ [-> ->]]|[_ ->]].
    + destruct (store_if_changed_cases now name target db)
        as [->|[out [_ ->]]].
      * exists new_targets, []. rewrite app_nil_r. auto.
      * exists new_targets, [new_traceroute now target out db].
        simpl. auto.
    + exists new_targets, []. rewrite app_nil_r. auto.
  - erewrite update_db_of_raise by exact Hres.
    exists [], []. rewrite !app_nil_r. auto.
Qed.

(** X10. An update keeps the keys of the database: snapshot ids stay
    unique and no second target with an existing name appears. *)
Theorem update_keeps_keys (now : datetime) (name address groups : string)
        (db : Db) :
  unique_ids db ->
  unique_names db ->
  unique_ids (db_of (update_traceroute_database loads nt command_runner
                                                now name address groups db))
  /\ unique_names
       (db_of (update_traceroute_database loads nt command_runner
                                          now name address groups db)).
Proof.
  intros Hids Hnames.
  destruct (resolve_target name address groups db) as [[[target db1] log]|e]
    eqn:Hres.
  2:{ erewrite update_db_of_raise by exact Hres. auto. }
  pose proof (resolve_target_traceroutes _ _ _ _ Hres) as Htab.
  assert (Hids1 : unique_ids db1) by (unfold unique_ids; now rewrite Htab).
  assert (Hnames1 : unique_names db1).
  { apply resolve_target_cases in Hres as [[_ ->]|[Hnone [Ht ->]]];
      [assumption|].
    unfold unique_names. simpl. rewrite map_app. simpl.
    eapply Permutation_NoDup; [apply Permutation_cons_append|].
    constructor; [|exact Hnames].
    intro Hin. apply in_map_iff in Hin as [other [Hname Hother]].
    assert (In other (targets_named name db)).
    { apply targets_named_In. split; [assumption|].
      rewrite Hname. subst target. reflexivity. }
    rewrite Hnone in H. contradiction. }
  destruct (@update_db_of now name address groups db db1 target log Hres) as [[_ [Hdb ->]]|[_ ->]]; [|auto].
  subst db1.
  destruct (store_if_changed_cases now name target db)
    as [->|[out [_ ->]]]; [auto|].
  split; [now apply insert_traceroute_unique_ids | exact Hnames1].
Qed.

(** An update keeps the order of the row ids. *)
Lemma update_ids_increasing (now : datetime) (name address groups : string)
      (db : Db) :
  ids_increasing db ->
  ids_increasing (db_of (update_traceroute_database loads nt command_runner
                                                    now name address groups
                                                    db)).
Proof.
  intro Hinc.
  destruct (resolve_target name address groups db) as [[[target db1] log]|e]
    eqn:Hres.
  2:{ erewrite update_db_of_raise by exact Hres. exact Hinc. }
  pose proof (resolve_target_traceroutes _ _ _ _ Hres) as Htab.
  destruct (@update_db_of now name address groups db db1 target log Hres)
    as [[_ [_ ->]]|[_ ->]].
  - destruct (store_if_changed_cases now name target db)
      as [->|[out [_ ->]]]; [exact Hinc|].
    now apply insert_traceroute_ids_increasing.
  - unfold ids_increasing. now rewrite Htab.
Qed.

End MoreUpdateFacts.

(** The snapshot an insertion adds is the one the next update compares
    against: it has the largest id of its target. *)
Lemma last_trace_of_insert (now : datetime) (target : Target.t)
      (output : string) (db : Db) :
  last_trace_of target (insert_traceroute now target output db)
  = Some (new_traceroute now target output db).
Proof.
  set (new := new_traceroute now target output db).
  set (db' := insert_traceroute now target output db).
  assert (Hnew : In new (traceroutes_of target db')).
  { unfold traceroutes_of, db', insert_traceroute. simpl.
    apply filter_In. split.
    - apply in_or_app. right. now left.
    - unfold of_target, new, new_traceroute. simpl. apply Nat.eqb_refl. }
  destruct (last_trace_of target db') as [last|] eqn:E.
  - apply last_trace_of_newest in E as [Hin Hmax].
    specialize (Hmax new Hnew).
    unfold traceroutes_of, db', insert_traceroute in Hin. simpl in Hin.
    apply filter_In in Hin as [Hin _].
    apply in_app_or in Hin as [Hold|[<-|[]]]; [|reflexivity].
    exfalso.
    assert (Hle : Traceroute.id last
                  <= list_max (map Traceroute.id (traceroutes db)))
      by (apply list_max_ge; now apply in_map).
    unfold new, new_traceroute, next_id in Hmax. simpl in Hmax. lia.
  - apply last_trace_of_None in E. rewrite E in Hnew. contradiction.
Qed.

Section UpdateComposition.

Variable loads : string -> trparse.Traceroute.
Variable nt : bool.
Variable command_runner : string -> string -> Z * string.

(** A text the probe returns is an output of the command runner. *)
Lemma get_traceroute_output (address current_trace : string) :
  fst (get_traceroute nt command_runner address) = Some current_trace ->
  exists command encoding,
    current_trace = snd (command_runner command encoding).
Proof.
  unfold get_traceroute. destruct address as [|c address]; [discriminate|].
  destruct (if nt then ("tracert", "cp437") else ("traceroute", "utf-8"))
    as [executable encoding].
  destruct (command_runner (executable ++ " " ++ String c address)%string
                           encoding) as [exit_code output] eqn:E.
  destruct (exit_code =? 0)%Z; [|discriminate].
  simpl. intro H. inversion H. subst.
  exists (executable ++ " " ++ String c address)%string, encoding.
  now rewrite E.
Qed.

Lemma truthy_Some (s : option string) (text : string) :
  truthy s = Some text -> s = Some text.
Proof. destruct s as [[|c s]|]; simpl; congruence. Qed.

Lemma store_if_changed_again (now now' : datetime) (name : string)
      (target : Target.t) (db : Db) :
  (forall command encoding,
      hops_have_probes (loads (snd (command_runner command encoding)))) ->
  fst (store_if_changed
         loads nt command_runner now' name target
         (fst (store_if_changed loads nt command_runner now name target db)))
  = fst (store_if_changed loads nt command_runner now name target db).
Proof.
  intro Hprobes.
  assert (Hstored : forall current_trace,
             truthy (fst (get_traceroute nt command_runner
                                         (Target.address target)))
             = Some current_trace ->
             fst (store_if_changed
                    loads nt command_runner now' name target
                    (insert_traceroute now target current_trace db))
             = insert_traceroute now target current_trace db).
  { intros current_trace Hout. unfold store_if_changed.
    destruct (get_traceroute nt command_runner (Target.address target))
      as [probe probe_log] eqn:Eprobe.
    simpl in Hout. rewrite Hout, last_trace_of_insert. simpl.
    apply truthy_Some in Hout. subst probe.
    destruct (get_traceroute_output (Target.address target)
                                    (current_trace := current_trace))
      as [command [encoding ->]]; [now rewrite Eprobe|].
    rewrite diff_traceroutes_self.
    rewrite filter_none
      by (intros i _; apply probeless_never, Hprobes).
    reflexivity. }
  unfold store_if_changed at 2 3.
  destruct (get_traceroute nt command_runner (Target.address target))
    as [probe probe_log] eqn:Eprobe.
  destruct (truthy probe) as [current_trace|] eqn:Etruthy.
  - assert (Hout : truthy (fst (get_traceroute nt command_runner
                                               (Target.address target)))
                   = Some current_trace) by (now rewrite Eprobe).
    destruct (last_trace_of target db) as [last|] eqn:Elast.
    + destruct (diff_traceroutes loads (Traceroute.traceroute last)
                                 current_trace) as [|i rest] eqn:Ediff.
      * simpl. unfold store_if_changed.
        rewrite Eprobe, Etruthy, Elast, Ediff. reflexivity.
      * simpl. now apply Hstored.
    + simpl. now apply Hstored.
  - simpl. unfold store_if_changed. rewrite Eprobe, Etruthy. reflexivity.
Qed.

(** X11. Updating a target of the database twice in a row stores at
    most one snapshot: when the probe gives the same output (a trace
    whose hops all carry a probe), the second update leaves the database
    exactly as the first one left it. *)
Theorem update_twice (now now' : datetime) (name address groups : string)
        (db : Db) (target : Target.t) :
  one (targets_named name db) = Ok target ->
  (forall command encoding,
      hops_have_probes (loads (snd (command_runner command encoding)))) ->
  db_of (update_traceroute_database
           loads nt command_runner now' name address groups
           (db_of (update_traceroute_database
                     loads nt command_runner now name address groups db)))
  = db_of (update_traceroute_database
             loads nt command_runner now name address groups db).
Proof.
  intros Hone Hprobes.
  rewrite (@update_known loads nt command_runner
                         now name address groups db target Hone).
  cbn [db_of].
  assert (Hagain : one (targets_named
                          name
                          (fst (store_if_changed loads nt command_runner
                                                 now name target db)))
                   = Ok target).
  { destruct (store_if_changed_cases loads nt command_runner
                                     now name target db)
      as [->|[out [_ ->]]]; exact Hone. }
  rewrite (@update_known loads nt command_runner
                         now' name address groups _ target Hagain).
  cbn [db_of]. now apply store_if_changed_again.
Qed.

(** X12. What an update stores is what the next lookup returns: after an
    update that changed the snapshot table, [get_last_traceroutes] with
    limit 1 returns exactly the new snapshot, whose text is the output of
    the probe. *)
Theorem update_then_get_last (now : datetime) (name address groups : string)
        (db db1 : Db) (target : Target.t) (log : list LogRecord)
        (current_trace : string) :
  resolve_target name address groups db = Ok (target, db1, log) ->
  truthy (fst (get_traceroute nt command_runner (Target.address target)))
  = Some current_trace ->
  traceroutes (db_of (update_traceroute_database
                        loads nt command_runner now name address groups db))
  <> traceroutes db ->
  get_last_traceroutes
    name (Some 1)
    (db_of (update_traceroute_database
              loads nt command_runner now name address groups db))
  = Ok (Some [Traceroute.mk (next_id (map Traceroute.id (traceroutes db)))
                            current_trace now (Target.id target)]).
Proof.
  intros Hres Hprobe Hchanged.
  pose proof (resolve_target_traceroutes _ _ _ _ Hres) as Htab.
  destruct (@update_db_of loads nt command_runner now name address groups
                          db db1 target log Hres)
    as [[Hone [Hdb Hof]]|[_ Hof]];
    rewrite Hof in Hchanged |- *; [|congruence].
  subst db1.
  destruct (store_if_changed_cases loads nt command_runner
                                   now name target db)
    as [Hsame|[out [Hout Hins]]].
  - rewrite Hsame in Hchanged. congruence.
  - assert (out = current_trace) by congruence. subst out.
    rewrite Hins. unfold get_last_traceroutes.
    assert (Hnamed : targets_named
                       name (insert_traceroute now target current_trace db)
                     = [target]) by (now apply one_Ok).
    rewrite Hnamed. simpl.
    pose proof (last_trace_of_insert now target current_trace db) as Hlast.
    unfold last_trace_of, first in Hlast.
    destruct (order_by_id_desc _) as [|newest rest]; [discriminate|].
    simpl in Hlast. inversion Hlast. reflexivity.
Qed.

End UpdateComposition.

(* ================================================================== *)
(** * Properties of the query surface *)

Lemma firstn_sorted {A : Type} (R : A -> A -> Prop) (n : nat) (l : list A) :
  StronglySorted R l -> StronglySorted R (firstn n l).
Proof.
  revert l. induction n as [|n IH]; intros l Hs; simpl; [constructor|].
  destruct l as [|x l]; [constructor|].
  inversion Hs as [|? ? Hrest Hall]; subst.
  constructor; [now apply IH|].
  apply Forall_forall. intros y Hy. apply firstn_incl in Hy.
  rewrite Forall_forall in Hall. now apply Hall.
Qed.

Lemma contains_char_app (c : ascii) (a b : string) :
  contains_char c (a ++ b)
  = contains_char c a || contains_char c b.
Proof.
  induction a as [|x a IH]; simpl; [reflexivity|].
  now rewrite IH, orb_assoc.
Qed.

(** Replacing a character by a text without it leaves no occurrence. *)
Lemma replace_char_removes (old : ascii) (new s : string) :
  contains_char old new = false ->
  contains_char old (replace_char old new s) = false.
Proof.
  intro Hnew. induction s as [|c s IH]; simpl; [reflexivity|].
  destruct (Ascii.eqb c old) eqn:E.
  - now rewrite contains_char_app, Hnew, IH.
  - simpl. now rewrite E, IH.
Qed.

Lemma skipn_nth_error {A : Type} (l : list A) (n : nat) (x : A) :
  nth_error l n = Some x -> skipn n l = x :: skipn (S n) l.
Proof.
  revert l. induction n as [|n IH]; intros [|y l] H; simpl in H;
    try discriminate.
  - inversion H. reflexivity.
  - simpl. now apply IH.
Qed.

Section QueryFacts.

Variable loads : string -> trparse.Traceroute.
Variable str_of_datetime : datetime -> string.
Variable colorama : option (string * string).
Variable repr : Traceroute.t -> string.

Lemma append_older_from (traceroutes : list Traceroute.t) (count start : nat)
      (output : string) :
  start + 2 + count <= List.length traceroutes ->
  fold_left
    (fun acc i =>
       output <- acc ;;
       traceroute <- getitem traceroutes (i + 2) ;;
       Ok (output ++ repr traceroute)%string)
    (seq start count) (Ok output)
  = Ok (output
          ++ String.concat
               "" (map repr (firstn count (skipn (start + 2) traceroutes))))%string.
Proof.
  revert start output.
  induction count as [|count IH]; intros start output Hlen.
  - simpl. now rewrite string_app_nil_r.
  - destruct (nth_error traceroutes (start + 2)) as [t|] eqn:E.
    2:{ apply nth_error_None in E. lia. }
    assert (Hget : getitem traceroutes (start + 2) = Ok t)
      by (unfold getitem; now rewrite E).
    cbn [seq fold_left]. cbn [bind]. rewrite Hget. cbn [bind].
    rewrite IH by lia.
    rewrite (skipn_nth_error _ _ E).
    replace (S start + 2) with (S (start + 2)) by lia.
    cbn [firstn map]. rewrite concat_cons_empty, string_app_assoc.
    reflexivity.
Qed.

(** The loop over the older snapshots never leaves the list: it appends
    the representation of every snapshot after the second, in order. *)
Lemma append_older_spec (traceroutes : list Traceroute.t) (output : string) :
  append_older repr traceroutes output
  = Ok (output ++ String.concat "" (map repr (skipn 2 traceroutes)))%string.
Proof.
  unfold append_older.
  destruct (Nat.le_gt_cases 2 (List.length traceroutes)) as [Hlen|Hlen].
  - rewrite append_older_from by lia. simpl Nat.add.
    rewrite firstn_all2; [reflexivity|]. rewrite length_skipn. lia.
  - replace (List.length traceroutes - 2) with 0 by lia.
    rewrite (skipn_all2 traceroutes) by lia.
    simpl. now rewrite string_app_nil_r.
Qed.

(** X13. For a known target, [get_last_traceroutes] returns snapshots of
    that target only, all of them stored, newest id first, and as many as
    the limit allows: [min(limit, count)], or all of them without a
    limit. *)
Theorem get_last_traceroutes_newest_first (name : string)
        (limit : option nat) (db : Db) (target : Target.t) :
  one (targets_named name db) = Ok target ->
  exists rows,
    get_last_traceroutes name limit db = Ok (Some rows)
    /\ StronglySorted id_ge rows
    /\ (forall row, In row rows ->
                    In row (traceroutes db)
                    /\ Traceroute.target row = Target.id target)
    /\ List.length rows
       = match limit with
         | Some n => Nat.min n (List.length (traceroutes_of target db))
         | None => List.length (traceroutes_of target db)
         end.
Proof.
  intro Hone. unfold get_last_traceroutes. rewrite Hone.
  pose proof (order_by_id_desc_perm (traceroutes_of target db)) as Hperm.
  pose proof (order_by_id_desc_sorted (traceroutes_of target db)) as Hsorted.
  assert (Hrows : forall row,
             In row (order_by_id_desc (traceroutes_of target db)) ->
             In row (traceroutes db)
             /\ Traceroute.target row = Target.id target).
  { intros row Hrow. apply (Permutation_in _ Hperm) in Hrow.
    apply filter_In in Hrow as [Hrow Hof]. split; [assumption|].
    now apply Nat.eqb_eq in Hof. }
  eexists. split; [reflexivity|].
  destruct limit as [n|].
  - split; [now apply firstn_sorted|]. split.
    + intros row Hrow. apply Hrows. now apply firstn_incl in Hrow.
    + rewrite length_firstn. now rewrite (Permutation_length Hperm).
  - split; [assumption|]. split; [assumption|].
    apply (Permutation_length Hperm).
Qed.

(** X14. A name without a target is reported, not raised:
    [get_last_traceroutes] returns [False], and the formatted query
    answers with the fixed not-found text and logs a warning, in every
    formatting and for every limit. *)
Theorem unknown_target_not_found (name : string) (limit : option nat)
        (formatting : string) (db : Db) :
  targets_named name db = [] ->
  get_last_traceroutes name limit db = Ok None
  /\ get_last_traceroutes_formatted loads str_of_datetime colorama repr
                                    name limit formatting db
     = (Ok (Text "Target not found in database."),
        [(WARNING,
          ("Target " ++ name
             ++ " has been requested but does not exist in database.")%string)]).
Proof.
  intro Hnone.
  assert (H : get_last_traceroutes name limit db = Ok None)
    by (unfold get_last_traceroutes; now rewrite Hnone).
  split; [exact H|].
  unfold get_last_traceroutes_formatted. now rewrite H.
Qed.

(** X15. A text returned for the web formatting contains no line feed:
    every one is replaced by a break tag, whatever the snapshots and
    their representation contain. *)
Theorem web_output_has_no_line_feed (name : string) (limit : option nat)
        (db : Db) (text : string) (log : list LogRecord) :
  get_last_traceroutes_formatted loads str_of_datetime colorama repr
                                 name limit "web" db
  = (Ok (Text text), log) ->
  contains_char nl_char text = false.
Proof.
  unfold get_last_traceroutes_formatted.
  destruct (get_last_traceroutes name limit db) as [[traceroutes|]|e];
    [| |discriminate].
  - match goal with
    | |- (match ?o with _ => _ end) = _ -> _ => destruct o as [[out|]|e]
    end; try discriminate.
    simpl. intro H. inversion H. subst.
    now apply replace_char_removes.
  - intro H. inversion H. reflexivity.
Qed.

(** X16. With two snapshots or more, the console text is the count of the
    snapshots fetched, the highlighted comparison of the two newest, and
    then the representation of every older snapshot, in order. *)
Theorem formatted_layout (name : string) (limit : option nat)
        (formatting : string) (db : Db)
        (first_one second_one : Traceroute.t) (older : list Traceroute.t) :
  get_last_traceroutes name limit db
  = Ok (Some (first_one :: second_one :: older)) ->
  String.eqb formatting "web" = false ->
  fst (get_last_traceroutes_formatted loads str_of_datetime colorama repr
                                      name limit formatting db)
  = Ok (Text ("Target has " ++ str_of_nat (2 + List.length older)
                ++ " tracreoute entries."
                ++ traceroutes_difference_formatted
                     loads str_of_datetime colorama
                     first_one second_one formatting
                ++ String.concat "" (map repr older))%string).
Proof.
  intros Hget Hweb. unfold get_last_traceroutes_formatted.
  rewrite Hget, append_older_spec. simpl. rewrite Hweb. simpl.
  now rewrite !string_app_assoc.
Qed.

End QueryFacts.

(* ================================================================== *)
(** * Further properties of the retention policy *)

Lemma subquery_old_rows (target : Target.t) (before : datetime) (n : Z)
      (db : Db) :
  subquery target before n db
  = firstn (Z.to_nat n)
           (map Traceroute.id (order_by_id_desc (old_rows target before db))).
Proof. reflexivity. Qed.

Lemma subquery_NoDup (target : Target.t) (before : datetime) (n : Z)
      (db : Db) :
  unique_ids db -> NoDup (subquery target before n db).
Proof.
  intro Hu. rewrite subquery_old_rows.
  set (ids := map Traceroute.id
                  (order_by_id_desc (old_rows target before db))).
  assert (Hids : NoDup ids).
  { eapply Permutation_NoDup.
    - apply Permutation_sym, Permutation_map, order_by_id_desc_perm.
    - now apply selection_unique_ids. }
  rewrite <- (firstn_skipn (Z.to_nat n) ids) in Hids.
  now apply NoDup_app_remove_r in Hids.
Qed.

(** With a primary key, the subquery selects exactly as many rows as it
    has ids. *)
Lemma selected_rows_exact (target : Target.t) (before : datetime) (n : Z)
      (db : Db) :
  unique_ids db ->
  List.length (filter (id_in (subquery target before n db)) (traceroutes db))
  = List.length (subquery target before n db).
Proof.
  intro Hu.
  rewrite <- (length_map Traceroute.id
                         (filter (id_in (subquery target before n db))
                                 (traceroutes db))).
  apply Permutation_length, NoDup_Permutation.
  - now apply selection_unique_ids.
  - now apply subquery_NoDup.
  - intro i. split.
    + intro Hi. apply in_map_iff in Hi as [row [<- Hrow]].
      apply filter_In in Hrow as [_ Hrow]. now apply id_in_spec.
    + intro Hi. pose proof Hi as Hi'.
      rewrite subquery_old_rows in Hi'. apply firstn_incl in Hi'.
      apply in_map_iff in Hi' as [row [<- Hrow]].
      apply (Permutation_in _ (order_by_id_desc_perm _)) in Hrow.
      apply filter_In in Hrow as [Hrow _].
      apply in_map, filter_In. split; [assumption|].
      now apply id_in_spec.
Qed.

Lemma subquery_count (target : Target.t) (before : datetime) (n : Z)
      (db : Db) :
  List.length (subquery target before n db)
  = Nat.min (Z.to_nat n) (List.length (old_rows target before db)).
Proof.
  rewrite subquery_old_rows, length_firstn, length_map.
  now rewrite (Permutation_length (order_by_id_desc_perm _)).
Qed.

(** The snapshots of the target that the deletion leaves. *)
Lemma remaining_count (target : Target.t) (before : datetime) (n : Z)
      (db : Db) :
  unique_ids db ->
  List.length
    (filter (of_target target)
            (filter (fun row => negb (id_in (subquery target before n db) row))
                    (traceroutes db)))
  = List.length (traceroutes_of target db)
    - Nat.min (Z.to_nat n) (List.length (old_rows target before db)).
Proof.
  intro Hu.
  pose proof (filter_split (of_target target)
                           (id_in (subquery target before n db))
                           (traceroutes db)) as Hsplit.
  assert (Hsel : filter (of_target target)
                        (filter (id_in (subquery target before n db))
                                (traceroutes db))
                 = filter (id_in (subquery target before n db))
                          (traceroutes db)).
  { apply filter_all. intros row Hrow.
    apply filter_In in Hrow as [Hrow Hin].
    now destruct (@subquery_selects target before n db row Hu Hrow Hin). }
  rewrite Hsel, selected_rows_exact, subquery_count in Hsplit
    by assumption.
  unfold traceroutes_of. lia.
Qed.

Lemma filter_filter_implied {A : Type} (p q : A -> bool) (l : list A) :
  (forall x, In x l -> p x = true -> q x = true) ->
  filter p (filter q l) = filter p l.
Proof.
  induction l as [|x l IH]; simpl; intro H; [reflexivity|].
  assert (IH' : filter p (filter q l) = filter p l)
    by (apply IH; intros y Hy; apply H; now right).
  destruct (p x) eqn:Ep.
  - rewrite (H x (or_introl eq_refl) Ep). simpl. now rewrite Ep, IH'.
  - destruct (q x); simpl; now rewrite ?Ep, IH'.
Qed.

(** The outcome of a call that gets as far as the deletion. *)
Lemma delete_old_traceroutes_deletes (now : datetime) (name : string)
      (days keep : Z) (db : Db) (target : Target.t) (before : datetime) :
  one (targets_named name db) = Ok target ->
  (keep < count_of target db)%Z ->
  (delta <- timedelta days ;; datetime_sub now delta) = Ok before ->
  db_of (delete_old_traceroutes now name days keep db)
  = mkDb (targets db)
         (filter (fun row =>
                    negb (id_in (subquery target before
                                          (count_of target db - keep) db)
                                row))
                 (traceroutes db)).
Proof.
  intros Hone Hkeep Hth. unfold delete_old_traceroutes.
  rewrite Hone. fold (count_of target db).
  apply Z.ltb_lt in Hkeep. rewrite Hkeep, Hth. reflexivity.
Qed.

(** Every other call leaves the database as it is. *)
Lemma delete_old_traceroutes_noop (now : datetime) (name : string)
      (days keep : Z) (db : Db) :
  (forall target, one (targets_named name db) = Ok target ->
                  (count_of target db <= keep)%Z
                  \/ exists e, (delta <- timedelta days ;;
                                datetime_sub now delta) = Raise e) ->
  db_of (delete_old_traceroutes now name days keep db) = db.
Proof.
  intro H. unfold delete_old_traceroutes.
  destruct (one (targets_named name db)) as [target|e].
  - fold (count_of target db).
    destruct (H target eq_refl) as [Hle|[e He]].
    + apply Z.ltb_ge in Hle. now rewrite Hle.
    + rewrite He. now destruct (keep <? count_of target db)%Z.
  - now destruct e.
Qed.

(** The database after a call: the same targets, and a selection of the
    snapshots. *)
Lemma delete_old_traceroutes_selection (now : datetime) (name : string)
      (days keep : Z) (db : Db) :
  exists kept,
    db_of (delete_old_traceroutes now name days keep db)
    = mkDb (targets db) (filter kept (traceroutes db)).
Proof.
  destruct (one (targets_named name db)) as [target|e] eqn:Hone.
  - destruct (Z.lt_ge_cases keep (count_of target db)) as [Hkeep|Hkeep].
    + destruct (delta <- timedelta days ;; datetime_sub now delta)
        as [before|e] eqn:Hth.
      * exists (fun row =>
                  negb (id_in (subquery target before
                                        (count_of target db - keep) db)
                              row)).
        now apply delete_old_traceroutes_deletes.
      * exists (fun _ => true). rewrite delete_old_traceroutes_noop.
        -- rewrite filter_all by reflexivity. now destruct db.
        -- intros t _. right. now exists e.
    + exists (fun _ => true). rewrite delete_old_traceroutes_noop.
      * rewrite filter_all by reflexivity. now destruct db.
      * intros t Ht. left. congruence.
  - exists (fun _ => true). rewrite delete_old_traceroutes_noop.
    + rewrite filter_all by reflexivity. now destruct db.
    + intros t Ht. congruence.
Qed.

(** X17. Pruning one target never touches another: the table of targets
    is unchanged, and a target with another id keeps all its snapshots,
    in order. *)
Theorem delete_old_traceroutes_other_targets (now : datetime) (name : string)
        (days keep : Z) (db : Db) (target other : Target.t) :
  unique_ids db ->
  one (targets_named name db) = Ok target ->
  Target.id other <> Target.id target ->
  targets (db_of (delete_old_traceroutes now name days keep db)) = targets db
  /\ traceroutes_of other
                    (db_of (delete_old_traceroutes now name days keep db))
     = traceroutes_of other db.
Proof.
  intros Hu Hone Hother.
  destruct (Z.lt_ge_cases keep (count_of target db)) as [Hkeep|Hkeep].
  - destruct (delta <- timedelta days ;; datetime_sub now delta)
      as [before|e] eqn:Hth.
    + erewrite delete_old_traceroutes_deletes by eassumption.
      split; [reflexivity|].
      unfold traceroutes_of. simpl.
      apply filter_filter_implied. intros row Hrow Hof.
      destruct (id_in _ row) eqn:Hin; [|reflexivity].
      destruct (@subquery_selects target before _ db row Hu Hrow Hin)
        as [Htarget _].
      unfold of_target in Hof, Htarget.
      apply Nat.eqb_eq in Hof, Htarget. congruence.
    + rewrite delete_old_traceroutes_noop; [auto|].
      intros t _. right. now exists e.
  - rewrite delete_old_traceroutes_noop; [auto|].
    intros t Ht. left. congruence.
Qed.

Lemma old_rows_le (target : Target.t) (before : datetime) (db : Db) :
  List.length (old_rows target before db)
  <= List.length (traceroutes_of target db).
Proof.
  unfold old_rows, traceroutes_of.
  induction (traceroutes db) as [|row rows IH]; simpl; [lia|].
  destruct (of_target target row); simpl; [|exact IH].
  destruct (Traceroute.creation_date row <? before)%Z; simpl; lia.
Qed.

(** A prune keeps the order of the row ids. *)
Lemma delete_old_traceroutes_ids_increasing (now : datetime) (name : string)
      (days keep : Z) (db : Db) :
  ids_increasing db ->
  ids_increasing (db_of (delete_old_traceroutes now name days keep db)).
Proof.
  intro Hinc.
  destruct (delete_old_traceroutes_selection now name days keep db)
    as [kept ->].
  unfold ids_increasing. simpl. now apply filter_ids_sorted.
Qed.

(** X20. Pruning again at the same instant with the same arguments
    deletes nothing more. *)
Theorem delete_old_traceroutes_twice (now : datetime) (name : string)
        (days keep : Z) (db : Db) :
  unique_ids db ->
  db_of (delete_old_traceroutes
           now name days keep
           (db_of (delete_old_traceroutes now name days keep db)))
  = db_of (delete_old_traceroutes now name days keep db).
Proof.
  intro Hu.
  destruct (one (targets_named name db)) as [target|e] eqn:Hone.
  2:{ assert (Hsame : db_of (delete_old_traceroutes now name days keep db)
                      = db)
        by (apply delete_old_traceroutes_noop; intros t Ht; congruence).
      now rewrite !Hsame. }
  destruct (Z.lt_ge_cases keep (count_of target db)) as [Hkeep|Hkeep].
  2:{ assert (Hsame : db_of (delete_old_traceroutes now name days keep db)
                      = db)
        by (apply delete_old_traceroutes_noop; intros t Ht; left;
            congruence).
      now rewrite !Hsame. }
  destruct (delta <- timedelta days ;; datetime_sub now delta)
    as [before|e] eqn:Hth.
  2:{ assert (Hsame : db_of (delete_old_traceroutes now name days keep db)
                      = db)
        by (apply delete_old_traceroutes_noop; intros t Ht; right;
            now exists e).
      now rewrite !Hsame. }
  rewrite (@delete_old_traceroutes_deletes now name days keep db
                                           target before Hone Hkeep Hth).
  set (ids := subquery target before (count_of target db - keep) db).
  set (db' := mkDb (targets db)
                   (filter (fun row => negb (id_in ids row))
                           (traceroutes db))).
  assert (Hcount : count_of target db'
                   = (count_of target db
                      - Z.min (count_of target db - keep)
                              (Z.of_nat (List.length
                                           (old_rows target before db))))%Z).
  { unfold count_of at 1. unfold traceroutes_of at 1. unfold db', ids.
    simpl. rewrite remaining_count by assumption.
    pose proof (old_rows_le target before db).
    unfold count_of in *. lia. }
  assert (Hone' : one (targets_named name db') = Ok target) by exact Hone.
  destruct (Z.lt_ge_cases keep (count_of target db')) as [Hkeep'|Hkeep'].
  - erewrite delete_old_traceroutes_deletes by eassumption.
    assert (Hall : (Z.of_nat (List.length (old_rows target before db))
                    < count_of target db - keep)%Z) by lia.
    assert (Hids : ids = map Traceroute.id
                             (order_by_id_desc (old_rows target before db))).
    { unfold ids. rewrite subquery_old_rows. apply firstn_all2.
      rewrite length_map, (Permutation_length (order_by_id_desc_perm _)).
      lia. }
    assert (Hnone : old_rows target before db' = []).
    { unfold old_rows, db'. simpl. apply filter_none. intros row Hrow.
      apply filter_In in Hrow as [Hrow Hout].
      destruct (of_target target row
                && (Traceroute.creation_date row <? before)%Z) eqn:Hold;
        [|reflexivity].
      exfalso. apply negb_true_iff in Hout.
      assert (Hin : id_in ids row = true).
      { apply id_in_spec. rewrite Hids. apply in_map.
        apply (Permutation_in _ (Permutation_sym (order_by_id_desc_perm _))).
        apply filter_In. split; assumption. }
      congruence. }
    rewrite subquery_old_rows, Hnone. simpl.
    rewrite firstn_nil. unfold db' at 1. f_equal.
    apply filter_all. reflexivity.
  - apply delete_old_traceroutes_noop. intros t Ht. left.
    assert (t = target) by congruence. now subst t.
Qed.

(** X21. A number of days that [timedelta] cannot hold, or that moves the
    threshold outside the years of a [datetime], makes the prune of a
    target with more than [keep] snapshots raise [OverflowError] and
    delete nothing. *)
Theorem delete_old_traceroutes_overflow (now : datetime) (name : string)
        (days keep : Z) (db : Db) (target : Target.t) :
  one (targets_named name db) = Ok target ->
  (keep < count_of target db)%Z ->
  (999999999 < Z.abs days
   \/ now - days * microseconds_per_day < 0
   \/ datetime_end <= now - days * microseconds_per_day)%Z ->
  returned (delete_old_traceroutes now name days keep db)
  = Raise OverflowError
  /\ db_of (delete_old_traceroutes now name days keep db) = db.
Proof.
  intros Hone Hkeep Hrange. unfold delete_old_traceroutes.
  rewrite Hone. fold (count_of target db).
  apply Z.ltb_lt in Hkeep. rewrite Hkeep.
  assert (Hth : (delta <- timedelta days ;; datetime_sub now delta)
                = Raise OverflowError).
  { unfold timedelta, datetime_sub, bind.
    destruct (Z.abs days <=? 999999999)%Z eqn:E1; [|reflexivity].
    apply Z.leb_le in E1.
    destruct ((0 <=? now - days * microseconds_per_day)
              && (now - days * microseconds_per_day <? datetime_end))%Z
      eqn:E2; [|reflexivity].
    apply andb_true_iff in E2 as [E2 E3].
    apply Z.leb_le in E2. apply Z.ltb_lt in E3. lia. }
  rewrite Hth. split; reflexivity.
Qed.

(* ================================================================== *)
(** * Further properties of the configuration readers *)

Lemma lookup_raises {V : Type} (key : string) (items : list (string * V))
      (e : exn) :
  lookup key items = Raise e -> e = KeyError.
Proof.
  induction items as [|[k v] rest IH]; simpl; [congruence|].
  destruct (String.eqb k key); [discriminate | exact IH].
Qed.

Lemma config_get_raises (config : Config) (section option : string)
      (e : exn) :
  config_get config section option = Raise e -> e = KeyError.
Proof.
  unfold config_get, bind.
  destruct (lookup section config) as [options|e'] eqn:E.
  - apply lookup_raises.
  - intro H. inversion H. subst. now apply lookup_raises in E.
Qed.

Lemma py_int_raises (s : string) (e : exn) :
  py_int s = Raise e -> e = ValueError.
Proof.
  unfold py_int. cbv zeta.
  match goal with
  | |- match ?parsed with Some _ => _ | None => _ end = _ -> _ =>
      destruct parsed; [|congruence]
  end.
  destruct (count_digits (strip_c s) <=? int_max_str_digits)%nat;
    [discriminate | congruence].
Qed.

(** Reading an integer option raises nothing but [KeyError] for a missing
    option and [ValueError] for a bad one. *)
Lemma int_option_raises (config : Config) (section option : string)
      (e : exn) :
  (value <- config_get config section option ;; py_int value) = Raise e ->
  e = KeyError \/ e = ValueError.
Proof.
  unfold bind.
  destruct (config_get config section option) as [value|e'] eqn:E.
  - intro H. right. now apply py_int_raises in H.
  - intro H. inversion H. subst. left. now apply config_get_raises in E.
Qed.

(** A line that is a title directive is not a host directive. *)
Lemma title_not_host (line value : string) :
  title_regex line = Some value -> host_regex line = None.
Proof.
  unfold title_regex, host_regex.
  destruct line as [|c line]; [discriminate|].
  cbn [strip_prefix]. destruct (Ascii.eqb "t" c) eqn:Et.
  - apply Ascii.eqb_eq in Et. subst c. reflexivity.
  - discriminate.
Qed.

Lemma fold_smokeping_body_values (lines : list string)
      (hosts : list re.Match) (names : list (option re.Match)) :
  fold_left smokeping_body lines (hosts, names)
  = (hosts ++ host_matches lines,
     names ++ repeat None (List.length (filter is_title_directive lines))).
Proof.
  revert hosts names.
  induction lines as [|line rest IH]; intros hosts names.
  - simpl. now rewrite !app_nil_r.
  - cbn [fold_left]. unfold smokeping_body at 2.
    cbn [host_matches flat_map filter]. unfold is_title_directive at 1.
    unfold re_match.
    destruct (title_regex line) as [title|] eqn:Et.
    + rewrite (title_not_host _ Et). rewrite IH. simpl.
      now rewrite <- app_assoc.
    + destruct (host_regex line) as [h|]; rewrite IH; simpl;
        now rewrite <- ?app_assoc.
Qed.

Lemma combine_repeat_None (hosts : list re.Match) :
  combine hosts (repeat (@None re.Match) (List.length hosts))
  = map (fun host => (host, None)) hosts.
Proof.
  induction hosts as [|h hosts IH]; simpl; [reflexivity | now rewrite IH].
Qed.

Section MoreReadConfigFacts.

Variable file_lines : string -> option (list string).

(** X22. When the reader accepts a smokeping file, it returns one entry
    per host directive, in file order. The value under ['host'] is the
    match object of the directive, which carries the line and, as its
    first group, the address; it is not the address text itself. The
    value under ['name'] of every entry is [None]: no title of the file
    reaches the result. *)
Theorem read_smokeping_config_entries (path : string) (lines : list string)
        (entries : list HostEntry) (log : list LogRecord) :
  file_lines path = Some lines ->
  read_smokeping_config file_lines (Some path) = (Ok (Some entries), log) ->
  entries = map (fun host => SmokepingHost host None) (host_matches lines)
  /\ Forall (fun host => In (re.subject host) lines
                         /\ host_regex (re.subject host)
                            = Some (re.group1 host))
            (host_matches lines).
Proof.
  intros Hfile Hread. split.
  - revert Hread. unfold read_smokeping_config.
    destruct path as [|c path']; [discriminate|].
    rewrite Hfile, fold_smokeping_body_values. simpl.
    destruct (List.length (host_matches lines)
              =? List.length
                   (repeat (@None re.Match)
                           (List.length (filter is_title_directive lines))))%nat
      eqn:E; [|discriminate].
    simpl. intro H. inversion H. subst.
    apply Nat.eqb_eq in E. rewrite repeat_length in E. rewrite <- E.
    rewrite combine_repeat_None, map_map. reflexivity.
  - apply Forall_forall. intros host Hin.
    unfold host_matches in Hin. apply in_flat_map in Hin as [line [Hline Hin]].
    destruct (host_regex line) as [address|] eqn:E; [|contradiction].
    destruct Hin as [<-|[]]. simpl. auto.
Qed.

(** X23. The set-up never takes the handlers of a bogus value: the three
    blocks that read [interval], [delete_history_days] and
    [minimum_keep] log nothing, whatever the configuration holds. *)
Theorem bogus_value_never_logged (config : Config) :
  snd (execute_interval config) = []
  /\ snd (execute_delete_history_days config) = []
  /\ snd (execute_minimum_keep config) = [].
Proof.
  unfold execute_interval, execute_delete_history_days,
    execute_minimum_keep.
  repeat split.
  - destruct (value <- config_get config "TRACEROUTE_HISTORY" "interval" ;;
              py_int value) as [n|e] eqn:E; [reflexivity|].
    apply int_option_raises in E as [->| ->]; reflexivity.
  - destruct (value <- config_get config "TRACEROUTE_HISTORY"
                                  "delete_history_days" ;;
              py_int value) as [n|e] eqn:E; [reflexivity|].
    apply int_option_raises in E as [->| ->]; reflexivity.
  - destruct (value <- config_get config "TRACEROUTE_HISTORY"
                                  "minimum_keep" ;;
              py_int value) as [n|e] eqn:E; [reflexivity|].
    apply int_option_raises in E as [->| ->]; reflexivity.
Qed.

(** X24. Without the option [smokeping_config_path] the set-up of
    [execute] raises [TypeError], whatever else the configuration and the
    file system hold: the reader is called with [None]. *)
Theorem execute_without_smokeping_path (config : Config) :
  config_get config "SMOKEPING_SOURCE" "smokeping_config_path"
  = Raise KeyError ->
  fst (execute_hosts file_lines config) = Raise TypeError
  /\ fst (execute_setup file_lines config) = Raise TypeError.
Proof.
  intro Hkey.
  assert (H : execute_hosts file_lines config = (Raise TypeError, []))
    by (unfold execute_hosts; now rewrite Hkey).
  split; [now rewrite H|].
  unfold execute_setup. now rewrite H.
Qed.

(** X25. When the first block of [execute] lets the set-up go on, the
    list of hosts is not empty, it starts with the [HOST_] sections of
    the configuration in file order, and what follows them are hosts of
    the smokeping file. *)
Theorem execute_hosts_result (config : Config) (hosts : list HostEntry) :
  fst (execute_hosts file_lines config) = Ok hosts ->
  hosts <> []
  /\ exists smokeping_hosts,
      hosts = config_hosts config ++ smokeping_hosts
      /\ Forall (fun entry => exists host name,
                     entry = SmokepingHost host name) smokeping_hosts.
Proof.
  unfold execute_hosts.
  destruct (config_get config "SMOKEPING_SOURCE" "smokeping_config_path")
    as [path|e] eqn:Hkey.
  - destruct (read_smokeping_config file_lines (Some path))
      as [[entries|e] log] eqn:Hread; [|discriminate].
    assert (Hentries : forall list, entries = Some list ->
               Forall (fun entry => exists host name,
                           entry = SmokepingHost host name) list).
    { intros list ->. unfold read_smokeping_config in Hread.
      destruct path as [|c path']; [discriminate|].
      destruct (file_lines (String c path')) as [lines|]; [|discriminate].
      destruct (fold_left smokeping_body lines ([], [])) as [hs ns].
      destruct (negb (List.length hs =? List.length ns)%nat);
        [discriminate|].
      inversion Hread. apply Forall_forall. intros entry Hentry.
      apply in_map_iff in Hentry as [[host name] [<- _]]. eauto. }
    destruct entries as [[|h more]|].
    + destruct (config_hosts config) as [|own rest] eqn:Eown;
        [discriminate|].
      simpl. intro H. inversion H. split; [discriminate|].
      exists []. now rewrite app_nil_r.
    + specialize (Hentries _ eq_refl).
      destruct (config_hosts config ++ h :: more) as [|x xs] eqn:Eall.
      * now destruct (config_hosts config).
      * simpl. intro H. inversion H. subst hosts.
        split; [discriminate|]. exists (h :: more). auto.
    + destruct (config_hosts config) as [|own rest] eqn:Eown;
        [discriminate|].
      simpl. intro H. inversion H. split; [discriminate|].
      exists []. now rewrite app_nil_r.
  - apply config_get_raises in Hkey as He. subst e. discriminate.
Qed.

(** X26. When [interval], [delete_history_days] and [minimum_keep] are
    all missing, the set-up uses 3600 seconds, no retention and a minimum
    of 100 snapshots, and logs nothing for them. *)
Theorem execute_setup_defaults (config : Config) (hosts : list HostEntry)
        (log : list LogRecord) :
  execute_hosts file_lines config = (Ok hosts, log) ->
  config_get config "TRACEROUTE_HISTORY" "interval" = Raise KeyError ->
  config_get config "TRACEROUTE_HISTORY" "delete_history_days"
  = Raise KeyError ->
  config_get config "TRACEROUTE_HISTORY" "minimum_keep" = Raise KeyError ->
  execute_setup file_lines config
  = (Ok (mkSettings hosts 3600 None 100), log).
Proof.
  intros Hhosts Hinterval Hdays Hkeep.
  unfold execute_setup, execute_interval, execute_delete_history_days,
    execute_minimum_keep.
  rewrite Hhosts, Hinterval, Hdays, Hkeep. simpl.
  now rewrite !app_nil_r.
Qed.

End MoreReadConfigFacts.

(* ================================================================== *)
(** * Properties of the text functions and of the command line *)

Lemma all_chars_impl (f g : ascii -> bool) (s : string) :
  (forall c, f c = true -> g c = true) ->
  all_chars f s = true -> all_chars g s = true.
Proof.
  intro Himpl. induction s as [|c s IH]; simpl; [reflexivity|].
  intro H. apply andb_true_iff in H as [Hc Hs].
  now rewrite (Himpl c Hc), IH.
Qed.

Lemma all_chars_app (f : ascii -> bool) (a b : string) :
  all_chars f (a ++ b) = all_chars f a && all_chars f b.
Proof.
  induction a as [|c a IH]; simpl; [reflexivity|].
  now rewrite IH, andb_assoc.
Qed.

Lemma drop_while_app (f : ascii -> bool) (a rest : string) :
  all_chars f a = true ->
  drop_while f (a ++ rest) = drop_while f rest.
Proof.
  induction a as [|c a IH]; simpl; [reflexivity|].
  intro H. apply andb_true_iff in H as [Hc Ha]. rewrite Hc. now apply IH.
Qed.

Lemma take_while_app (f : ascii -> bool) (a rest : string) :
  all_chars f a = true ->
  take_while f (a ++ rest) = (a ++ take_while f rest)%string.
Proof.
  induction a as [|c a IH]; simpl; [reflexivity|].
  intro H. apply andb_true_iff in H as [Hc Ha]. rewrite Hc.
  now rewrite IH.
Qed.

(** A text that does not start with a character of the class is left
    alone. *)
Lemma drop_while_head (f : ascii -> bool) (s : string) :
  all_chars (fun c => negb (f c)) s = true -> drop_while f s = s.
Proof.
  destruct s as [|c s]; simpl; [reflexivity|].
  intro H. apply andb_true_iff in H as [Hc _].
  apply negb_true_iff in Hc. now rewrite Hc.
Qed.

Lemma all_chars_forallb (f : ascii -> bool) (s : string) :
  all_chars f s = forallb f (list_ascii_of_string s).
Proof. induction s as [|c s IH]; simpl; [reflexivity | now rewrite IH]. Qed.

Lemma all_chars_rev (f : ascii -> bool) (s : string) :
  all_chars f s = true -> all_chars f (rev_string s) = true.
Proof.
  unfold rev_string. rewrite !all_chars_forallb.
  rewrite list_ascii_of_string_of_list_ascii, !forallb_forall.
  intros H c Hc. apply H. now apply in_rev.
Qed.

Lemma rev_string_involutive (s : string) : rev_string (rev_string s) = s.
Proof.
  unfold rev_string.
  now rewrite list_ascii_of_string_of_list_ascii, rev_involutive,
    string_of_list_ascii_of_string.
Qed.

(** Stripping leaves a text without whitespace alone. *)
Lemma strip_c_no_space (s : string) :
  all_chars (fun c => negb (is_c_space c)) s = true -> strip_c s = s.
Proof.
  intro H. unfold strip_c. rewrite (drop_while_head is_c_space s H).
  rewrite (drop_while_head is_c_space (rev_string s))
    by now apply all_chars_rev.
  apply rev_string_involutive.
Qed.

Lemma digit_not_space (c : ascii) :
  is_digit c = true -> negb (is_c_space c) = true.
Proof.
  destruct c as [[|] [|] [|] [|] [|] [|] [|] [|]];
    vm_compute; congruence.
Qed.

Lemma digit_not_comma (c : ascii) :
  is_digit c = true -> negb (Ascii.eqb c ",") = true.
Proof.
  destruct c as [[|] [|] [|] [|] [|] [|] [|] [|]];
    vm_compute; congruence.
Qed.

Lemma string_of_uint_digits (d : Decimal.uint) :
  all_chars is_digit (NilEmpty.string_of_uint d) = true.
Proof. induction d; simpl; [reflexivity | assumption ..]. Qed.

Lemma digits_step (c : ascii) (s : string) (acc value : Z) (after : bool) :
  digit_of c = Some value ->
  digits (String c s) acc after = digits s (10 * acc + value) true.
Proof. intro H. cbn [digits]. now rewrite H. Qed.

(** Reading the digits of a numeral gives its value. *)
Lemma digits_string_of_uint (d : Decimal.uint) (acc : Z) :
  digits (NilEmpty.string_of_uint d) acc true = Some (uint_val d acc).
Proof.
  revert acc.
  induction d; intro acc; cbn [NilEmpty.string_of_uint uint_val];
    [reflexivity|..];
    erewrite digits_step by (vm_compute; reflexivity);
    rewrite ?Z.add_0_r; apply IHd.
Qed.

Lemma digits_string_of_uint_start (d : Decimal.uint) (acc : Z) :
  d <> Decimal.Nil ->
  digits (NilEmpty.string_of_uint d) acc false = Some (uint_val d acc).
Proof.
  intro Hd.
  destruct d; [congruence|..]; cbn [NilEmpty.string_of_uint uint_val];
    erewrite digits_step by (vm_compute; reflexivity);
    rewrite ?Z.add_0_r; apply digits_string_of_uint.
Qed.

Lemma uint_val_acc (d : Decimal.uint) (acc : positive) :
  uint_val d (Zpos acc) = Zpos (Pos.of_uint_acc d acc).
Proof.
  revert acc.
  induction d; intro acc; cbn [uint_val Pos.of_uint_acc];
    [reflexivity|..];
    rewrite <- IHd; f_equal; lia.
Qed.

Lemma uint_val_of_uint (d : Decimal.uint) :
  uint_val d 0 = Z.of_N (Pos.of_uint d).
Proof.
  induction d; cbn [uint_val Pos.of_uint];
    [ reflexivity
    | exact IHd
    | exact (uint_val_acc d 1) | exact (uint_val_acc d 2)
    | exact (uint_val_acc d 3) | exact (uint_val_acc d 4)
    | exact (uint_val_acc d 5) | exact (uint_val_acc d 6)
    | exact (uint_val_acc d 7) | exact (uint_val_acc d 8)
    | exact (uint_val_acc d 9) ].
Qed.

Lemma uint_val_to_uint (p : positive) :
  uint_val (Pos.to_uint p) 0 = Zpos p.
Proof.
  now rewrite uint_val_of_uint, DecimalPos.Unsigned.of_to.
Qed.

(** [int] on a run of digits: its value, unless the run is longer than
    [int_max_str_digits]. *)
Lemma py_int_digits (s : string) (n : Z) :
  all_chars is_digit s = true ->
  digits s 0 false = Some n ->
  py_int s = if (count_digits s <=? int_max_str_digits)%nat then Ok n
             else Raise ValueError.
Proof.
  intros Hs Hn. unfold py_int.
  rewrite strip_c_no_space
    by (apply (all_chars_impl is_digit); [apply digit_not_space | exact Hs]).
  destruct s as [|c s]; [now rewrite Hn|].
  simpl in Hs. apply andb_true_iff in Hs as [Hc _].
  destruct c as [[|] [|] [|] [|] [|] [|] [|] [|]];
    try (vm_compute in Hc; discriminate); now rewrite Hn.
Qed.

(** Printing an integer and reading it back gives the integer, for a
    text of at most [int_max_str_digits] digits; [int] refuses a longer
    one. *)
Lemma py_int_str_of_Z (n : Z) :
  py_int (str_of_Z n)
  = if (count_digits (str_of_Z n) <=? int_max_str_digits)%nat then Ok n
    else Raise ValueError.
Proof.
  unfold str_of_Z. destruct n as [|p|p]; [reflexivity| |].
  - simpl Z.to_int. cbn [NilZero.string_of_int]. unfold NilZero.string_of_uint.
    pose proof (DecimalPos.Unsigned.to_uint_nonnil p) as Hnil.
    assert (H : py_int (NilEmpty.string_of_uint (Pos.to_uint p))
                = if (count_digits (NilEmpty.string_of_uint (Pos.to_uint p))
                      <=? int_max_str_digits)%nat
                  then Ok (Zpos p) else Raise ValueError).
    { apply py_int_digits; [apply string_of_uint_digits|].
      now rewrite digits_string_of_uint_start, uint_val_to_uint. }
    destruct (Pos.to_uint p); [congruence | exact H ..].
  - simpl Z.to_int. cbn [NilZero.string_of_int]. unfold NilZero.string_of_uint.
    pose proof (DecimalPos.Unsigned.to_uint_nonnil p) as Hnil.
    assert (H : py_int (String "-" (NilEmpty.string_of_uint (Pos.to_uint p)))
                = if (count_digits
                        (String "-" (NilEmpty.string_of_uint (Pos.to_uint p)))
                      <=? int_max_str_digits)%nat
                  then Ok (Zneg p) else Raise ValueError).
    { unfold py_int.
      rewrite strip_c_no_space.
      - rewrite digits_string_of_uint_start, uint_val_to_uint by assumption.
        reflexivity.
      - simpl. apply (all_chars_impl is_digit);
          [apply digit_not_space | apply string_of_uint_digits]. }
    destruct (Pos.to_uint p); [congruence | exact H ..].
Qed.

Lemma split_on_no_sep (sep : ascii) (s : string) :
  contains_char sep s = false -> split_on sep s = [s].
Proof.
  induction s as [|c s IH]; simpl; [reflexivity|].
  intro H. apply orb_false_iff in H as [Hc Hs].
  rewrite Hc, (IH Hs). reflexivity.
Qed.

Lemma split_on_app_sep (sep : ascii) (a b : string) :
  contains_char sep a = false ->
  split_on sep (a ++ String sep b) = a :: split_on sep b.
Proof.
  induction a as [|c a IH]; simpl.
  - intros _. now rewrite Ascii.eqb_refl.
  - intro H. apply orb_false_iff in H as [Hc Ha].
    rewrite Hc, (IH Ha). reflexivity.
Qed.

Lemma all_chars_no_char (c : ascii) (s : string) :
  all_chars (fun x => negb (Ascii.eqb x c)) s = true ->
  contains_char c s = false.
Proof.
  induction s as [|x s IH]; simpl; [reflexivity|].
  intro H. apply andb_true_iff in H as [Hx Hs].
  apply negb_true_iff in Hx. now rewrite Hx, IH.
Qed.

(** A printed integer has no comma. *)
Lemma str_of_Z_no_comma (n : Z) : contains_char "," (str_of_Z n) = false.
Proof.
  assert (Huint : forall d,
             contains_char "," (NilZero.string_of_uint d) = false).
  { intro d.
    assert (H : contains_char "," (NilEmpty.string_of_uint d) = false).
    { apply all_chars_no_char, (all_chars_impl is_digit);
        [apply digit_not_comma | apply string_of_uint_digits]. }
    destruct d; [reflexivity | exact H ..]. }
  unfold str_of_Z. destruct (Z.to_int n) as [d|d]; simpl.
  - apply Huint.
  - apply Huint.
Qed.

(** X27. The reader of the smokeping file recovers the address of a host
    directive: for an address without whitespace, the directive written
    with any whitespace around the equals sign, at the end of the file or
    before a line feed, is matched and the captured group is the
    address. *)
Theorem host_regex_address (pad1 pad2 address ending : string) :
  all_chars is_space pad1 = true ->
  all_chars is_space pad2 = true ->
  all_chars (fun c => negb (is_space c)) address = true ->
  ending = EmptyString \/ ending = nl ->
  host_regex ("host" ++ pad1 ++ "=" ++ pad2 ++ address ++ ending)
  = Some address.
Proof.
  intros Hpad1 Hpad2 Haddress Hending.
  unfold host_regex.
  change (strip_prefix "host"
            ("host" ++ pad1 ++ "=" ++ pad2 ++ address ++ ending))
    with (Some (pad1 ++ "=" ++ pad2 ++ address ++ ending)%string).
  unfold after_equals. rewrite (drop_while_app _ _ _ Hpad1).
  change (drop_while is_space ("=" ++ pad2 ++ address ++ ending))
    with (String "=" (pad2 ++ address ++ ending)).
  cbn [Ascii.eqb Bool.eqb]. rewrite (drop_while_app _ _ _ Hpad2).
  assert (Hend_take : take_while (fun c => negb (is_space c)) ending
                      = EmptyString)
    by (destruct Hending as [-> | ->]; reflexivity).
  assert (Hend_dollar : at_dollar ending = true)
    by (destruct Hending as [-> | ->]; reflexivity).
  destruct address as [|c address].
  - assert (Hvalue : drop_while is_space (EmptyString ++ ending)
                     = EmptyString)
      by (destruct Hending as [-> | ->]; reflexivity).
    rewrite Hvalue. reflexivity.
  - assert (Hhead : drop_while is_space (String c address ++ ending)
                    = (String c address ++ ending)%string).
    { simpl in Haddress |- *.
      apply andb_true_iff in Haddress as [Hc _].
      apply negb_true_iff in Hc. now rewrite Hc. }
    rewrite Hhead, drop_while_app, take_while_app by assumption.
    assert (Hdrop : drop_while (fun c => negb (is_space c)) ending
                    = ending)
      by (destruct Hending as [-> | ->]; reflexivity).
    rewrite Hdrop, Hend_dollar, Hend_take. now rewrite string_app_nil_r.
Qed.

(** X28. The argument [host,n] of [--get-traceroutes-for] asks for [n]
    snapshots of [host]: for a host name without comma and an integer
    [n] printed with at most 4300 digits, splitting and parsing the
    argument gives back the host and the number. [int] refuses a longer
    number, and the whole argument is then taken as the host, without a
    limit. *)
Theorem get_traceroutes_for_host_limit (host : string) (n : Z) :
  contains_char "," host = false ->
  get_traceroutes_for (host ++ "," ++ str_of_Z n)
  = if (count_digits (str_of_Z n) <=? 4300)%nat
    then (host, Some n)
    else ((host ++ "," ++ str_of_Z n)%string, None).
Proof.
  intro Hhost. unfold get_traceroutes_for.
  change (host ++ "," ++ str_of_Z n)%string
    with (host ++ String "," (str_of_Z n))%string.
  rewrite split_on_app_sep by assumption.
  rewrite split_on_no_sep by apply str_of_Z_no_comma.
  rewrite py_int_str_of_Z. unfold int_max_str_digits.
  now destruct (count_digits (str_of_Z n) <=? 4300)%nat.
Qed.

(** An argument without comma names the host and sets no limit. *)
Lemma get_traceroutes_for_host_only (arg : string) :
  contains_char "," arg = false ->
  get_traceroutes_for arg = (arg, None).
Proof.
  intro H. unfold get_traceroutes_for.
  now rewrite split_on_no_sep by assumption.
Qed.

(** X30. When the text after the comma is not an integer, the whole
    argument, comma included, is taken as the host name, and no limit is
    set. *)
Theorem get_traceroutes_for_bad_limit (host text : string) :
  contains_char "," host = false ->
  contains_char "," text = false ->
  py_int text = Raise ValueError ->
  get_traceroutes_for (host ++ "," ++ text)
  = ((host ++ "," ++ text)%string, None).
Proof.
  intros Hhost Htext Hint. unfold get_traceroutes_for.
  change (host ++ "," ++ text)%string
    with (host ++ String "," text)%string.
  rewrite split_on_app_sep by assumption.
  rewrite split_on_no_sep by assumption.
  now rewrite Hint.
Qed.

(* ================================================================== *)
(** * Listing the targets *)

Lemma list_targets_map (groups_of : Target.t -> list string) (db : Db) :
  list_targets groups_of db
  = map (fun target => (Target.name target, Target.address target,
                        groups_of target))
        (targets db).
Proof.
  unfold list_targets.
  assert (H : forall rows acc,
             fold_left
               (fun output target =>
                  output ++ [(Target.name target, Target.address target,
                              groups_of target)])
               rows acc
             = acc ++ map (fun target =>
                             (Target.name target, Target.address target,
                              groups_of target)) rows).
  { induction rows as [|row rows IH]; intro acc; simpl.
    - now rewrite app_nil_r.
    - rewrite IH, <- app_assoc. reflexivity. }
  apply (H (targets db) []).
Qed.

(** X29. After an update whose target was resolved, [list_targets] has
    the entry of that target, under the name that was asked for; it lists
    one entry per target, in table order. *)
Theorem update_lists_target
        (loads : string -> trparse.Traceroute) (nt : bool)
        (command_runner : string -> string -> Z * string)
        (groups_of : Target.t -> list string)
        (now : datetime) (name address groups : string)
        (db db1 : Db) (target : Target.t) (log : list LogRecord) :
  resolve_target name address groups db = Ok (target, db1, log) ->
  In (name, Target.address target, groups_of target)
     (list_targets
        groups_of
        (db_of (update_traceroute_database loads nt command_runner
                                           now name address groups db)))
  /\ map (fun entry => fst (fst entry))
         (list_targets
            groups_of
            (db_of (update_traceroute_database loads nt command_runner
                                               now name address groups db)))
     = map Target.name
           (targets
              (db_of (update_traceroute_database loads nt command_runner
                                                 now name address groups
                                                 db))).
Proof.
  intro Hres. rewrite list_targets_map. split.
  - assert (Htargets : targets
                         (db_of (update_traceroute_database
                                   loads nt command_runner
                                   now name address groups db))
                       = targets db1).
    { destruct (@update_db_of loads nt command_runner now name address groups
                          db db1 target log Hres)
        as [[_ [-> ->]]|[_ ->]]; [|reflexivity].
      destruct (store_if_changed_cases loads nt command_runner
                                       now name target db)
        as [->|[out [_ ->]]]; reflexivity. }
    rewrite Htargets.
    assert (Hin : In target (targets db1) /\ Target.name target = name).
    { apply resolve_target_cases in Hres
        as [[Hnamed ->]|[_ [Htarget ->]]].
      - apply targets_named_In. rewrite Hnamed. now left.
      - split; [|now subst target].
        simpl. apply in_or_app. right. now left. }
    destruct Hin as [Hin Hname].
    apply in_map_iff. exists target. now rewrite Hname.
  - rewrite map_map. reflexivity.
Qed.

(* ================================================================== *)
(** * The further properties on the sample data *)

(** A text with its header line only against a route of three hops. *)
Lemma diff_traceroutes_empty_side_sample :
  diff_traceroutes MoreSamples.loads
                   MoreSamples.header_only MoreSamples.trace_c = [0; 1; 2]
  /\ diff_traceroutes MoreSamples.loads
                      MoreSamples.trace_c MoreSamples.header_only = [0; 1; 2].
Proof.
  exact (@diff_traceroutes_empty_side
           MoreSamples.loads MoreSamples.header_only MoreSamples.trace_c
           eq_refl).
Defined.

(** A route and the same route with another router at its third hop. *)
Lemma diff_traceroutes_one_hop_sample :
  diff_traceroutes MoreSamples.loads MoreSamples.trace_c MoreSamples.trace_d
  = [2].
Proof.
  apply (@diff_traceroutes_one_hop MoreSamples.loads
                                   MoreSamples.trace_c MoreSamples.trace_d 2).
  - repeat constructor; discriminate.
  - repeat constructor; discriminate.
  - reflexivity.
  - simpl. lia.
  - vm_compute. discriminate.
  - intros [|[|[|j]]] Hj; try reflexivity. congruence.
Defined.

(** The second hop of two routes answered none of three probes. *)
Lemma diff_traceroutes_unresolved_sample :
  ~ In 1 (diff_traceroutes MoreSamples.loads
                           MoreSamples.trace_f MoreSamples.trace_g).
Proof.
  exact (proj1 (@diff_traceroutes_unresolved
                  MoreSamples.loads MoreSamples.trace_f MoreSamples.trace_g
                  1 eq_refl)
               eq_refl).
Defined.

(** The route with a second reply from another router at its first hop
    compares like the route without it. *)
Lemma diff_traceroutes_first_probe_only_sample :
  diff_traceroutes MoreSamples.loads MoreSamples.trace_c MoreSamples.trace_d
  = diff_traceroutes MoreSamples.loads
                     MoreSamples.trace_e MoreSamples.trace_d.
Proof.
  apply (@diff_traceroutes_first_probe_only
           MoreSamples.loads MoreSamples.trace_c MoreSamples.trace_e
           MoreSamples.trace_d).
  - reflexivity.
  - intros [|[|[|i]]]; reflexivity.
Defined.

(** Two stored snapshots with the same route. *)
Lemma identical_snapshots_render_plain_sample :
  traceroutes_difference_formatted
    MoreSamples.loads str_of_Z None
    (Traceroute.mk 3 MoreSamples.trace_c 30%Z 1)
    (Traceroute.mk 1 MoreSamples.trace_c 10%Z 1) "console"
  = ("Traceroute recorded at 30:" ++ nl ++ (MoreSamples.trace_c ++ nl)
       ++ "Traceroute recorded at 10:" ++ nl
       ++ (MoreSamples.trace_c ++ nl))%string.
Proof.
  apply (@identical_snapshots_render_plain
           MoreSamples.loads str_of_Z None
           (Traceroute.mk 3 MoreSamples.trace_c 30%Z 1)
           (Traceroute.mk 1 MoreSamples.trace_c 10%Z 1) "console").
  - reflexivity.
  - repeat constructor; discriminate.
Defined.

(** The first two updates for a name the empty database does not know:
    the first one fails, the second one stores snapshot 1. *)
Lemma update_unknown_target_sample :
  returned (update_traceroute_database
              Sample.loads false Sample.command_runner
              Sample.now "router-b" "192.0.2.2" "" Sample.empty_db)
  = Raise DetachedInstanceError
  /\ traceroutes
       (db_of (update_traceroute_database
                 Sample.loads false Sample.command_runner
                 (Sample.now + 3600000000)%Z "router-b" "192.0.2.2" ""
                 (db_of (update_traceroute_database
                           Sample.loads false Sample.command_runner
                           Sample.now "router-b" "192.0.2.2" ""
                           Sample.empty_db))))
     = [Traceroute.mk 1 Sample.trace_b (Sample.now + 3600000000)%Z 1].
Proof.
  pose proof (@update_unknown_target
                Sample.loads false Sample.command_runner
                Sample.now (Sample.now + 3600000000)%Z
                "router-b" "192.0.2.2" "" Sample.empty_db
                eq_refl) as [Hraised [_ [_ Hsecond]]].
  split; [exact Hraised|].
  exact (proj2 (Hsecond (Forall_nil _) Sample.trace_b eq_refl)).
Defined.

Lemma sample_unique_ids : unique_ids Sample.db.
Proof.
  unfold unique_ids. simpl. repeat constructor; simpl; intuition discriminate.
Defined.

Lemma more_samples_unique_ids : unique_ids MoreSamples.db.
Proof.
  unfold unique_ids. simpl. repeat constructor; simpl; intuition discriminate.
Defined.

(** The keys of the sample database after an update. *)
Lemma update_keeps_keys_sample :
  unique_ids (db_of (update_traceroute_database
                       Sample.loads false Sample.command_runner
                       Sample.now "router-a" "192.0.2.1" "" Sample.db))
  /\ unique_names
       (db_of (update_traceroute_database
                 Sample.loads false Sample.command_runner
                 Sample.now "router-a" "192.0.2.1" "" Sample.db)).
Proof.
  apply (@update_keeps_keys Sample.loads false Sample.command_runner
                            Sample.now "router-a" "192.0.2.1" "" Sample.db).
  - exact sample_unique_ids.
  - unfold unique_names. simpl. repeat constructor. intros [].
Defined.

Lemma sample_probes :
  forall command encoding,
    hops_have_probes
      (MoreSamples.loads (snd (MoreSamples.command_runner command encoding))).
Proof. intros command encoding. repeat constructor; discriminate. Defined.

(** Two updates in a row of a target whose route changed. *)
Lemma update_twice_sample :
  db_of (update_traceroute_database
           MoreSamples.loads false MoreSamples.command_runner
           (Sample.now + 3600000000)%Z "router-a" "192.0.2.1" ""
           (db_of (update_traceroute_database
                     MoreSamples.loads false MoreSamples.command_runner
                     Sample.now "router-a" "192.0.2.1" ""
                     MoreSamples.resolved_db)))
  = db_of (update_traceroute_database
             MoreSamples.loads false MoreSamples.command_runner
             Sample.now "router-a" "192.0.2.1" "" MoreSamples.resolved_db).
Proof.
  exact (@update_twice MoreSamples.loads false MoreSamples.command_runner
                       Sample.now (Sample.now + 3600000000)%Z
                       "router-a" "192.0.2.1" "" MoreSamples.resolved_db
                       Sample.router_a eq_refl sample_probes).
Defined.

(** The lookup after the update of the sample target. *)
Lemma update_then_get_last_sample :
  get_last_traceroutes
    "router-a" (Some 1)
    (db_of (update_traceroute_database
              Sample.loads false Sample.command_runner
              Sample.now "router-a" "192.0.2.1" "" Sample.db))
  = Ok (Some [Traceroute.mk 4 Sample.trace_b Sample.now 1]).
Proof.
  apply (@update_then_get_last
           Sample.loads false Sample.command_runner
           Sample.now "router-a" "192.0.2.1" ""
           Sample.db Sample.db Sample.router_a [] Sample.trace_b).
  - reflexivity.
  - reflexivity.
  - vm_compute. discriminate.
Defined.

(** The two newest snapshots of the sample target. *)
Lemma get_last_traceroutes_newest_first_sample :
  exists rows,
    get_last_traceroutes "router-a" (Some 2) Sample.db = Ok (Some rows)
    /\ StronglySorted id_ge rows
    /\ (forall row, In row rows ->
                    In row (traceroutes Sample.db)
                    /\ Traceroute.target row = 1)
    /\ List.length rows = 2.
Proof.
  exact (@get_last_traceroutes_newest_first
           "router-a" (Some 2) Sample.db Sample.router_a eq_refl).
Defined.

(** A name the sample database does not know. *)
Lemma unknown_target_not_found_sample :
  get_last_traceroutes "router-z" (Some 1) Sample.db = Ok None
  /\ get_last_traceroutes_formatted
       Sample.loads str_of_Z None MoreSamples.repr
       "router-z" (Some 1) "web" Sample.db
     = (Ok (Text "Target not found in database."),
        [(WARNING,
          "Target router-z has been requested but does not exist in database.")]).
Proof.
  exact (@unknown_target_not_found
           Sample.loads str_of_Z None MoreSamples.repr
           "router-z" (Some 1) "web" Sample.db eq_refl).
Defined.

(** The web text of the newest snapshot of the sample target. *)
Lemma web_output_has_no_line_feed_sample :
  exists text log,
    get_last_traceroutes_formatted
      Sample.loads str_of_Z None MoreSamples.repr
      "router-a" (Some 1) "web" Sample.db
    = (Ok (Text text), log)
    /\ contains_char nl_char text = false.
Proof.
  eexists. eexists. split.
  - vm_compute. reflexivity.
  - apply (@web_output_has_no_line_feed
             Sample.loads str_of_Z None MoreSamples.repr
             "router-a" (Some 1) Sample.db _ []).
    vm_compute. reflexivity.
Defined.

(** The console text of all three snapshots of the sample target. *)
Lemma formatted_layout_sample :
  fst (get_last_traceroutes_formatted
         Sample.loads str_of_Z None MoreSamples.repr
         "router-a" None "console" Sample.db)
  = Ok (Text ("Target has 3 tracreoute entries."
                ++ traceroutes_difference_formatted
                     Sample.loads str_of_Z None
                     (Traceroute.mk 3 Sample.trace_a
                                    (Sample.now - 45 * Sample.day)%Z 1)
                     (Traceroute.mk 2 Sample.trace_b
                                    (Sample.now - 60 * Sample.day)%Z 1)
                     "console"
                ++ "<Traceroute 1>" ++ nl)%string).
Proof.
  exact (@formatted_layout
           Sample.loads str_of_Z None MoreSamples.repr
           "router-a" None "console" Sample.db
           (Traceroute.mk 3 Sample.trace_a (Sample.now - 45 * Sample.day)%Z 1)
           (Traceroute.mk 2 Sample.trace_b (Sample.now - 60 * Sample.day)%Z 1)
           [Traceroute.mk 1 Sample.trace_a (Sample.now - 90 * Sample.day)%Z 1]
           eq_refl eq_refl).
Defined.

(** Pruning the first target of the database with two targets. *)
Lemma delete_old_traceroutes_other_targets_sample :
  targets (db_of (delete_old_traceroutes Sample.now "router-a" 30 1
                                         MoreSamples.db))
  = targets MoreSamples.db
  /\ traceroutes_of MoreSamples.router_b
                    (db_of (delete_old_traceroutes Sample.now "router-a" 30 1
                                                   MoreSamples.db))
     = traceroutes_of MoreSamples.router_b MoreSamples.db.
Proof.
  apply (@delete_old_traceroutes_other_targets
           Sample.now "router-a" 30 1 MoreSamples.db
           Sample.router_a MoreSamples.router_b).
  - exact more_samples_unique_ids.
  - reflexivity.
  - simpl. lia.
Defined.

Lemma delete_old_traceroutes_twice_sample :
  db_of (delete_old_traceroutes
           Sample.now "router-a" 30 2
           (db_of (delete_old_traceroutes Sample.now "router-a" 30 2
                                          Sample.db)))
  = db_of (delete_old_traceroutes Sample.now "router-a" 30 2 Sample.db).
Proof.
  exact (@delete_old_traceroutes_twice
           Sample.now "router-a" 30 2 Sample.db sample_unique_ids).
Defined.

(** A thousand million days. *)
Lemma delete_old_traceroutes_overflow_sample :
  returned (delete_old_traceroutes Sample.now "router-a" 1000000000 2
                                   Sample.db)
  = Raise OverflowError
  /\ db_of (delete_old_traceroutes Sample.now "router-a" 1000000000 2
                                   Sample.db)
     = Sample.db.
Proof.
  apply (@delete_old_traceroutes_overflow
           Sample.now "router-a" 1000000000 2 Sample.db Sample.router_a).
  - reflexivity.
  - reflexivity.
  - left. reflexivity.
Defined.

(** The smokeping file with two hosts and two titles. *)
Lemma read_smokeping_config_entries_sample :
  [SmokepingHost MoreSamples.host_a None;
   SmokepingHost MoreSamples.host_b None]
  = map (fun host => SmokepingHost host None)
        (host_matches MoreSamples.smokeping_lines)
  /\ Forall (fun host => In (re.subject host) MoreSamples.smokeping_lines
                         /\ host_regex (re.subject host)
                            = Some (re.group1 host))
            (host_matches MoreSamples.smokeping_lines).
Proof.
  exact (@read_smokeping_config_entries
           MoreSamples.file_lines "/etc/smokeping/Targets"
           MoreSamples.smokeping_lines
           [SmokepingHost MoreSamples.host_a None;
            SmokepingHost MoreSamples.host_b None]
           [] eq_refl eq_refl).
Defined.

Lemma execute_without_smokeping_path_sample :
  fst (execute_hosts MoreSamples.file_lines
                     MoreSamples.config_without_smokeping)
  = Raise TypeError
  /\ fst (execute_setup MoreSamples.file_lines
                        MoreSamples.config_without_smokeping)
     = Raise TypeError.
Proof.
  exact (@execute_without_smokeping_path
           MoreSamples.file_lines MoreSamples.config_without_smokeping
           eq_refl).
Defined.

Lemma execute_hosts_result_sample :
  [ConfigSection "HOST_router-a";
   SmokepingHost MoreSamples.host_a None;
   SmokepingHost MoreSamples.host_b None]
  <> []
  /\ exists smokeping_hosts,
      [ConfigSection "HOST_router-a";
       SmokepingHost MoreSamples.host_a None;
   SmokepingHost MoreSamples.host_b None]
      = config_hosts MoreSamples.config ++ smokeping_hosts
      /\ Forall (fun entry => exists host name,
                     entry = SmokepingHost host name) smokeping_hosts.
Proof.
  exact (@execute_hosts_result
           MoreSamples.file_lines MoreSamples.config
           [ConfigSection "HOST_router-a";
            SmokepingHost MoreSamples.host_a None;
   SmokepingHost MoreSamples.host_b None]
           eq_refl).
Defined.

Lemma execute_setup_defaults_sample :
  execute_setup MoreSamples.file_lines MoreSamples.config
  = (Ok (mkSettings
           [ConfigSection "HOST_router-a";
            SmokepingHost MoreSamples.host_a None;
   SmokepingHost MoreSamples.host_b None]
           3600 None 100), []).
Proof.
  exact (@execute_setup_defaults
           MoreSamples.file_lines MoreSamples.config
           [ConfigSection "HOST_router-a";
            SmokepingHost MoreSamples.host_a None;
   SmokepingHost MoreSamples.host_b None]
           [] eq_refl eq_refl eq_refl eq_refl).
Defined.

Lemma host_regex_address_sample :
  host_regex ("host" ++ " " ++ "=" ++ " " ++ "192.0.2.1" ++ nl)
  = Some "192.0.2.1".
Proof.
  exact (@host_regex_address " " " " "192.0.2.1" nl
                             eq_refl eq_refl eq_refl (or_intror eq_refl)).
Defined.

Lemma get_traceroutes_for_host_limit_sample :
  get_traceroutes_for ("router-a" ++ "," ++ str_of_Z 5) = ("router-a", Some 5%Z).
Proof. exact (@get_traceroutes_for_host_limit "router-a" 5 eq_refl). Defined.

Lemma get_traceroutes_for_bad_limit_sample :
  get_traceroutes_for ("router-a" ++ "," ++ "abc")
  = (("router-a" ++ "," ++ "abc")%string, None).
Proof.
  exact (@get_traceroutes_for_bad_limit "router-a" "abc"
                                        eq_refl eq_refl eq_refl).
Defined.

Lemma update_lists_target_sample :
  In ("router-b", "192.0.2.2", [])
     (list_targets
        MoreSamples.groups_of
        (db_of (update_traceroute_database
                  Sample.loads false Sample.command_runner
                  Sample.now "router-b" "192.0.2.2" "" Sample.db)))
  /\ map (fun entry => fst (fst entry))
         (list_targets
            MoreSamples.groups_of
            (db_of (update_traceroute_database
                      Sample.loads false Sample.command_runner
                      Sample.now "router-b" "192.0.2.2" "" Sample.db)))
     = map Target.name
           (targets
              (db_of (update_traceroute_database
                        Sample.loads false Sample.command_runner
                        Sample.now "router-b" "192.0.2.2" "" Sample.db))).
Proof.
  exact (@update_lists_target
           Sample.loads false Sample.command_runner MoreSamples.groups_of
           Sample.now "router-b" "192.0.2.2" "" Sample.db
           (mkDb [Sample.router_a; Target.mk 2 "router-b" "192.0.2.2"]
                 (traceroutes Sample.db))
           (Target.mk 2 "router-b" "192.0.2.2")
           [(INFO, "Created new target: router-b.")] eq_refl).
Defined.
